(** * Task reconciliation layer of the Personal AI Productivity Assistant

    A shallow embedding of the TypeScript sources
    - [src/lib/ai-client.ts]: parseAIResponse, parseDocumentAnalysis,
      parseTasksFromResponse, generateTasks;
    - [src/lib/task-utils.ts]: createTask, filterTasks, sortTasks,
      calculateTaskStats, getTasksDueToday, getOverdueTasks,
      getUpcomingTasks, updateTask, completeTask, loadTasksFromStorage;
    - [src/app/api/tasks/ai-generate/route.ts] and
      [src/app/api/documents/extract-tasks/route.ts]: the processedTasks map
      and the handlers around it;
    - the task CRUD route: the GET, POST, PUT and DELETE handlers;
    - [src/components/TaskBoard.tsx]: the filter, the sort and the handlers
      of the task list;
    together with the properties the specification states about them and
    further properties of the code.

    Conventions of the embedding:
    - a JavaScript string is a [string], the bytes of its text in UTF-8;
    - a number that is a time value is an integer number of milliseconds, or
      NaN: [num];
    - an exception is an explicit [Throw] outcome of the [Completion] monad,
      and a try block with its catch clause is a match on it;
    - an object built by an object literal with spread syntax is a finite map
      from property names to values, [gmap string value]; a value typed by
      the [Task] interface is a record;
    - what a function reads from its environment (the clock, the random
      source, the offsets of the host's time zone, the host's date parser
      and collation) is an argument. *)

From Stdlib Require Import ZArith Ascii String List Bool Lia Permutation Sorted.
From stdpp Require Import gmap strings list pretty.

Set Warnings "-register-all".

Local Open Scope string_scope.
Local Open Scope list_scope.
Local Open Scope Z_scope.

(** * The embedding *)

(** ** Completions: normal results and thrown exceptions *)

Inductive JsError : Type :=
| SyntaxError
| TypeError.

Inductive Completion (A : Type) : Type :=
| Normal (a : A)
| Throw (e : JsError).

Arguments Normal {A} a.
Arguments Throw {A} e.

Definition bind {A B : Type} (c : Completion A) (k : A -> Completion B) : Completion B :=
  match c with
  | Normal a => k a
  | Throw e => Throw e
  end.

Notation "'let!' x ':=' c 'in' k" := (bind c (fun x => k))
  (at level 10, x name, c at level 100, k at level 200).

(** [try { body } catch (error) { }] followed by [return fallback]: the body
    either returns a value ([Some]), falls through ([None]) or throws. *)
Definition try_or_else {A : Type} (body : Completion (option A)) (fallback : A) : Completion A :=
  match body with
  | Normal (Some a) => Normal a
  | Normal None => Normal fallback
  | Throw _ => Normal fallback
  end.

(** ** Numbers that may be NaN *)

Inductive num : Type :=
| Num (z : Z)
| NaN.

Definition num_sub (a b : num) : num :=
  match a, b with
  | Num x, Num y => Num (x - y)
  | _, _ => NaN
  end.

Definition num_neg (a : num) : num :=
  match a with
  | Num x => Num (- x)
  | NaN => NaN
  end.

(** [a < b]: false as soon as one side is NaN. *)
Definition num_lt (a b : num) : bool :=
  match a, b with
  | Num x, Num y => x <? y
  | _, _ => false
  end.

(** [a >= b]: false as soon as one side is NaN. *)
Definition num_ge (a b : num) : bool :=
  match a, b with
  | Num x, Num y => y <=? x
  | _, _ => false
  end.

(** ** JSON values, as produced by [JSON.parse] *)

(** A JSON number [JNum m e] denotes the decimal [m * 10^e] of the text,
    kept exact; the host holds the double nearest to it. *)
Inductive json : Type :=
| JNull
| JBool (b : bool)
| JNum (m e : Z)
| JStr (s : string)
| JArr (items : list json)
| JObj (members : list (string * json)).

(** Own-property lookup in the member list of a parsed object. *)
Fixpoint members_get (k : string) (ms : list (string * json)) : option json :=
  match ms with
  | [] => None
  | (k', v) :: r => if String.eqb k k' then Some v else members_get k r
  end.

(** [JSON.parse] keeps one member per key: a repeated key overwrites the value
    stored at its first position. *)
Fixpoint members_set (k : string) (v : json) (ms : list (string * json)) : list (string * json) :=
  match ms with
  | [] => [(k, v)]
  | (k', v') :: r => if String.eqb k k' then (k, v) :: r else (k', v') :: members_set k v r
  end.

(** A record: a parsed object. *)
Definition is_record (j : json) : bool :=
  match j with
  | JObj _ => true
  | _ => false
  end.

(** ** JavaScript values met in the sources *)

Inductive value : Type :=
| VUndefined
| VJson (j : json)
| VDate (t : num).

Abbreviation JsObject := (gmap string value).

Definition VStr (s : string) : value := VJson (JStr s).
Definition VBool (b : bool) : value := VJson (JBool b).
Definition VEmptyArray : value := VJson (JArr []).

(** The number that [JSON.parse] makes of the decimal [m * 10^e] is the
    double nearest to it, and that double is zero exactly when the decimal
    is at most [2^-1075] in size: half of the least positive double, the tie
    going to zero. *)
Definition rounds_to_zero (m e : Z) : bool :=
  if 0 <=? e then m =? 0
  else Z.abs m * 2 ^ 1075 <=? 10 ^ (- e).

(** ToBoolean: [null], [false], zero and the empty string are falsy. *)
Definition json_truthy (j : json) : bool :=
  match j with
  | JNull => false
  | JBool b => b
  | JNum m e => negb (rounds_to_zero m e)
  | JStr s => negb (String.eqb s EmptyString)
  | JArr _ => true
  | JObj _ => true
  end.

Definition truthy (v : value) : bool :=
  match v with
  | VUndefined => false
  | VJson j => json_truthy j
  | VDate _ => true
  end.

(** [a || b] *)
Definition js_or (a b : value) : value := if truthy a then a else b.

(** The member [k] of a record, [undefined] when the record has none. *)
Definition member (k : string) (ms : list (string * json)) : value :=
  match members_get k ms with
  | Some v => VJson v
  | None => VUndefined
  end.

(** [taskData.key] where [taskData] came out of [JSON.parse]: reading a
    property of [null] throws a TypeError; a primitive or an array has none of
    the property names the sources read; an object gives its own member. *)
Definition get_prop (j : json) (k : string) : Completion value :=
  match j with
  | JNull => Throw TypeError
  | JObj ms => Normal (member k ms)
  | _ => Normal VUndefined
  end.

(** [o.k] for an object [o]. *)
Definition object_get (o : JsObject) (k : string) : value :=
  match o !! k with
  | Some v => v
  | None => VUndefined
  end.

(** [a === b] where [b] came out of [JSON.parse] in this request: an array or
    an object is a fresh one, identical to nothing that was stored. *)
Definition strict_equals (a b : value) : bool :=
  match a, b with
  | VUndefined, VUndefined => true
  | VJson JNull, VJson JNull => true
  | VJson (JBool x), VJson (JBool y) => Bool.eqb x y
  | VJson (JStr x), VJson (JStr y) => String.eqb x y
  | VJson (JNum m1 e1), VJson (JNum m2 e2) =>
      let e := Z.min e1 e2 in
      m1 * 10 ^ (e1 - e) =? m2 * 10 ^ (e2 - e)
  | _, _ => false
  end.

(** ** Object literals with spread syntax *)

Inductive literal_item : Type :=
| Field (k : string) (v : value)
| Spread (src : JsObject).

(** Properties are defined from left to right; a later definition of a
    property replaces an earlier one. *)
Definition literal_step (o : JsObject) (it : literal_item) : JsObject :=
  match it with
  | Field k v => <[k := v]> o
  | Spread src => src ∪ o
  end.

Definition object_literal (items : list literal_item) : JsObject :=
  fold_left literal_step items ∅.

(** The own properties of a parsed object. *)
Definition object_of_members (ms : list (string * json)) : JsObject :=
  fold_right (fun kv o => <[fst kv := VJson (snd kv)]> o) ∅ ms.

(** ** [String.prototype.match] with the patterns [/\{[\s\S]*\}/] and
       [/\[[\s\S]*\]/] *)

(** [[\s\S]*c] at the head of [s], greedy with backtracking: first try to let
    the star take one more character, and only when the rest cannot match
    let [c] match here. The result is the matched text. *)
Fixpoint star_any_then (c : ascii) (s : list ascii) : option (list ascii) :=
  match s with
  | [] => None
  | x :: r =>
      match star_any_then c r with
      | Some m => Some (x :: m)
      | None => if Ascii.eqb x c then Some [x] else None
      end
  end.

(** The pattern [o[\s\S]*c] searched from left to right: the first start
    position at which it matches wins. *)
Fixpoint regex_exec (o c : ascii) (s : list ascii) : option (list ascii) :=
  match s with
  | [] => None
  | x :: r =>
      if Ascii.eqb x o then
        match star_any_then c r with
        | Some m => Some (x :: m)
        | None => regex_exec o c r
        end
      else regex_exec o c r
  end.

(** [response.match(/o[\s\S]*c/)], giving [jsonMatch[0]] when there is a match. *)
Definition String_match (o c : ascii) (response : string) : option string :=
  option_map string_of_list_ascii (regex_exec o c (list_ascii_of_string response)).

(** ** [String.prototype.trim]

    [trim] takes white space and line terminators off both ends of a
    string: the code points U+0009 to U+000D, U+0020, U+00A0, U+1680, U+2000
    to U+200A, U+2028, U+2029, U+202F, U+205F, U+3000 and U+FEFF. The string
    is held in UTF-8, where the ones above U+0020 take two or three bytes. *)

(** The white space of one byte: U+0009 to U+000D and U+0020. *)
Definition is_js_space (a : ascii) : bool :=
  match nat_of_ascii a with
  | 9%nat | 10%nat | 11%nat | 12%nat | 13%nat | 32%nat => true
  | _ => false
  end.

(** The white space of two bytes: U+00A0, the bytes C2 A0. *)
Definition is_js_space2 (a b : ascii) : bool :=
  (N_of_ascii a =? 194)%N && (N_of_ascii b =? 160)%N.

(** The white space of three bytes: U+1680 (E1 9A 80), U+2000 to U+200A
    (E2 80 80 to E2 80 8A), U+2028 and U+2029 (E2 80 A8, E2 80 A9), U+202F
    (E2 80 AF), U+205F (E2 81 9F), U+3000 (E3 80 80) and U+FEFF (EF BB BF). *)
Definition is_js_space3 (a b c : ascii) : bool :=
  let a := N_of_ascii a in
  let b := N_of_ascii b in
  let c := N_of_ascii c in
  ((a =? 225) && (b =? 154) && (c =? 128)
   || (a =? 226) && (b =? 128)
      && ((128 <=? c) && (c <=? 138) || (c =? 168) || (c =? 169) || (c =? 175))
   || (a =? 226) && (b =? 129) && (c =? 159)
   || (a =? 227) && (b =? 128) && (c =? 128)
   || (a =? 239) && (b =? 187) && (c =? 191))%N.

Section Trim.

(** What counts as a white space character of one, two and three bytes. *)
Variable sp1 : ascii -> bool.
Variable sp2 : ascii -> ascii -> bool.
Variable sp3 : ascii -> ascii -> ascii -> bool.

(** The text without the white space characters it starts with. *)
Fixpoint trim_by (s : list ascii) : list ascii :=
  match s with
  | [] => []
  | a :: r1 =>
      if sp1 a then trim_by r1
      else
        match r1 with
        | [] => s
        | b :: r2 =>
            if sp2 a b then trim_by r2
            else
              match r2 with
              | [] => s
              | c :: r3 => if sp3 a b c then trim_by r3 else s
              end
        end
  end.

End Trim.

Definition trim_start (s : list ascii) : list ascii :=
  trim_by is_js_space is_js_space2 is_js_space3 s.

(** From the end the bytes of a character are met last byte first. *)
Definition trim_end (s : list ascii) : list ascii :=
  rev (trim_by is_js_space (fun b a => is_js_space2 a b)
         (fun c b a => is_js_space3 a b c) (rev s)).

Definition String_trim (s : string) : string :=
  string_of_list_ascii (trim_end (trim_start (list_ascii_of_string s))).

(** ** [JSON.parse]

    A recursive-descent reader of the JSON grammar (ECMA-404), which is the
    grammar [JSON.parse] accepts. The reader of a value and the reader of
    the elements or members that hold it take turns, and each pair of turns
    consumes at least one character, so twice the length of the text is
    enough fuel ([JSON_parse_fuel] below). *)

Definition is_json_ws (a : ascii) : bool :=
  match nat_of_ascii a with
  | 9%nat | 10%nat | 13%nat | 32%nat => true
  | _ => false
  end.

Fixpoint skip_ws (s : list ascii) : list ascii :=
  match s with
  | [] => []
  | x :: r => if is_json_ws x then skip_ws r else s
  end.

Definition digit_of (a : ascii) : option Z :=
  let n := Z.of_nat (nat_of_ascii a) in
  if (48 <=? n) && (n <=? 57) then Some (n - 48) else None.

Definition hex_of (a : ascii) : option Z :=
  let n := Z.of_nat (nat_of_ascii a) in
  if (48 <=? n) && (n <=? 57) then Some (n - 48)
  else if (65 <=? n) && (n <=? 70) then Some (n - 55)
  else if (97 <=? n) && (n <=? 102) then Some (n - 87)
  else None.

Definition ascii_of_Z (z : Z) : ascii := ascii_of_nat (Z.to_nat z).

(** The code unit of a [\uXXXX] escape, written out in UTF-8. *)
Definition utf8_of_code_unit (u : Z) : list ascii :=
  if u <? 128 then [ascii_of_Z u]
  else if u <? 2048 then [ascii_of_Z (192 + u / 64); ascii_of_Z (128 + u mod 64)]
  else [ascii_of_Z (224 + u / 4096); ascii_of_Z (128 + (u / 64) mod 64);
        ascii_of_Z (128 + u mod 64)].

(** The characters of a string literal after its opening quote. *)
Fixpoint parse_string_chars (s : list ascii) (acc : list ascii)
  : option (string * list ascii) :=
  match s with
  | [] => None
  | x :: r =>
      if Ascii.eqb x "034" then Some (string_of_list_ascii (rev acc), r)
      else if Ascii.eqb x "\" then
        match r with
        | e :: r' =>
            let simple (c : ascii) := parse_string_chars r' (c :: acc) in
            if Ascii.eqb e "034" then simple "034"%char
            else if Ascii.eqb e "\" then simple "\"%char
            else if Ascii.eqb e "/" then simple "/"%char
            else if Ascii.eqb e "b" then simple (ascii_of_nat 8)
            else if Ascii.eqb e "f" then simple (ascii_of_nat 12)
            else if Ascii.eqb e "n" then simple (ascii_of_nat 10)
            else if Ascii.eqb e "r" then simple (ascii_of_nat 13)
            else if Ascii.eqb e "t" then simple (ascii_of_nat 9)
            else if Ascii.eqb e "u" then
              match r' with
              | h1 :: h2 :: h3 :: h4 :: r'' =>
                  match hex_of h1, hex_of h2, hex_of h3, hex_of h4 with
                  | Some a, Some b, Some c, Some d =>
                      parse_string_chars r''
                        (rev (utf8_of_code_unit (((a * 16 + b) * 16 + c) * 16 + d)) ++ acc)
                  | _, _, _, _ => None
                  end
              | _ => None
              end
            else None
        | [] => None
        end
      else if (nat_of_ascii x <? 32)%nat then None
      else parse_string_chars r (x :: acc)
  end.

(** A run of decimal digits: its value continued from [acc], how many digits
    it has, and the rest of the text. *)
Fixpoint parse_digits (s : list ascii) (acc : Z) (n : Z) : Z * Z * list ascii :=
  match s with
  | [] => (acc, n, [])
  | x :: r =>
      match digit_of x with
      | Some d => parse_digits r (acc * 10 + d) (n + 1)
      | None => (acc, n, s)
      end
  end.

(** A number: an optional minus sign; an integer part that is either 0 or
    starts with a non-zero digit; an optional fraction (a dot and at least one
    digit); an optional exponent (e or E, an optional sign, at least one
    digit). *)
Definition parse_sign (s : list ascii) : bool * list ascii :=
  match s with
  | x :: r => if Ascii.eqb x "-" then (true, r) else (false, s)
  | [] => (false, s)
  end.

Definition parse_int (s : list ascii) : option (Z * list ascii) :=
  match s with
  | x :: r =>
      if Ascii.eqb x "0" then Some (0, r)
      else match digit_of x with
           | Some _ => let '(v, _, r') := parse_digits s 0 0 in Some (v, r')
           | None => None
           end
  | [] => None
  end.

(** The fraction continues the digits of the integer part [iv]; the result
    counts the digits of the fraction. *)
Definition parse_frac (iv : Z) (s : list ascii) : option (Z * Z * list ascii) :=
  match s with
  | x :: r =>
      if Ascii.eqb x "." then
        let '(v, n, r') := parse_digits r iv 0 in
        if n =? 0 then None else Some (v, n, r')
      else Some (iv, 0, s)
  | [] => Some (iv, 0, s)
  end.

Definition parse_exp (s : list ascii) : option (Z * list ascii) :=
  match s with
  | x :: r =>
      if Ascii.eqb x "e" || Ascii.eqb x "E" then
        let '(eneg, r1) :=
          match r with
          | y :: r0 =>
              if Ascii.eqb y "-" then (true, r0)
              else if Ascii.eqb y "+" then (false, r0)
              else (false, r)
          | [] => (false, r)
          end in
        let '(v, n, r') := parse_digits r1 0 0 in
        if n =? 0 then None else Some ((if eneg then - v else v), r')
      else Some (0, s)
  | [] => Some (0, s)
  end.

Definition parse_number (s : list ascii) : option (json * list ascii) :=
  let '(neg, s1) := parse_sign s in
  match parse_int s1 with
  | None => None
  | Some (iv, s2) =>
      match parse_frac iv s2 with
      | None => None
      | Some (mv, fn, s3) =>
          match parse_exp s3 with
          | None => None
          | Some (ev, s4) => Some (JNum (if neg then - mv else mv) (ev - fn), s4)
          end
      end
  end.

(** [expect w s]: the text [s] without its prefix [w]. *)
Fixpoint expect (w s : list ascii) : option (list ascii) :=
  match w, s with
  | [], _ => Some s
  | a :: w', b :: s' => if Ascii.eqb a b then expect w' s' else None
  | _ :: _, [] => None
  end.

Fixpoint parse_value (fuel : nat) (s : list ascii) : option (json * list ascii) :=
  match fuel with
  | O => None
  | S fuel' =>
      match skip_ws s with
      | [] => None
      | x :: r =>
          if Ascii.eqb x "{" then
            match skip_ws r with
            | y :: r' =>
                if Ascii.eqb y "}" then Some (JObj [], r')
                else parse_members fuel' (y :: r') []
            | [] => None
            end
          else if Ascii.eqb x "[" then
            match skip_ws r with
            | y :: r' =>
                if Ascii.eqb y "]" then Some (JArr [], r')
                else parse_elements fuel' (y :: r') []
            | [] => None
            end
          else if Ascii.eqb x "034" then
            match parse_string_chars r [] with
            | Some (str, r') => Some (JStr str, r')
            | None => None
            end
          else if Ascii.eqb x "t" then
            option_map (fun r' => (JBool true, r')) (expect (list_ascii_of_string "rue") r)
          else if Ascii.eqb x "f" then
            option_map (fun r' => (JBool false, r')) (expect (list_ascii_of_string "alse") r)
          else if Ascii.eqb x "n" then
            option_map (fun r' => (JNull, r')) (expect (list_ascii_of_string "ull") r)
          else parse_number (x :: r)
      end
  end

(** The elements of an array up to its closing bracket, separated by commas;
    [acc] holds the values read so far, latest first. *)
with parse_elements (fuel : nat) (s : list ascii) (acc : list json)
  : option (json * list ascii) :=
  match fuel with
  | O => None
  | S fuel' =>
      match parse_value fuel' s with
      | None => None
      | Some (v, r) =>
          match skip_ws r with
          | x :: r' =>
              if Ascii.eqb x "," then parse_elements fuel' r' (v :: acc)
              else if Ascii.eqb x "]" then Some (JArr (rev (v :: acc)), r')
              else None
          | [] => None
          end
      end
  end

(** The members of an object up to its closing brace, separated by commas;
    [acc] holds the members read so far. *)
with parse_members (fuel : nat) (s : list ascii) (acc : list (string * json))
  : option (json * list ascii) :=
  match fuel with
  | O => None
  | S fuel' =>
      match skip_ws s with
      | q :: r0 =>
          if Ascii.eqb q "034" then
            match parse_string_chars r0 [] with
            | None => None
            | Some (k, r1) =>
                match skip_ws r1 with
                | c :: r2 =>
                    if Ascii.eqb c ":" then
                      match parse_value fuel' r2 with
                      | None => None
                      | Some (v, r3) =>
                          match skip_ws r3 with
                          | x :: r4 =>
                              if Ascii.eqb x "," then parse_members fuel' r4 (members_set k v acc)
                              else if Ascii.eqb x "}" then Some (JObj (members_set k v acc), r4)
                              else None
                          | [] => None
                          end
                      end
                    else None
                | [] => None
                end
            end
          else None
      | [] => None
      end
  end.

(** [JSON.parse(text)]: one value surrounded by optional white space, or a
    SyntaxError. *)
Definition JSON_parse (text : string) : Completion json :=
  let s := list_ascii_of_string text in
  match parse_value (S (2 * length s)) s with
  | Some (v, r) =>
      match skip_ws r with
      | [] => Normal v
      | _ :: _ => Throw SyntaxError
      end
  | None => Throw SyntaxError
  end.

(** ** The AI response normalizer ([src/lib/ai-client.ts]) *)

Definition chat_fallback (response : string) : JsObject :=
  object_literal
    [ Field "response" (VStr (String_trim response));
      Field "suggestions" VEmptyArray;
      Field "generatedTasks" VEmptyArray ].

Definition parseAIResponse (response : string) : Completion JsObject :=
  try_or_else
    (match String_match "{" "}" response with
     | Some jsonMatch =>
         let! parsed := JSON_parse jsonMatch in
         let! r := get_prop parsed "response" in
         let! suggestions := get_prop parsed "suggestions" in
         let! generatedTasks := get_prop parsed "generatedTasks" in
         let! actions := get_prop parsed "actions" in
         Normal (Some (object_literal
                   [ Field "response" (js_or r (VStr response));
                     Field "suggestions" suggestions;
                     Field "generatedTasks" generatedTasks;
                     Field "actions" actions ]))
     | None => Normal None
     end)
    (chat_fallback response).

Definition analysis_fallback (response : string) : json :=
  JObj [ ("summary", JStr response);
         ("insights", JArr []);
         ("extractedTasks", JArr []);
         ("keyTopics", JArr []);
         ("actionItems", JArr []) ].

Definition parseDocumentAnalysis (response : string) : Completion json :=
  try_or_else
    (match String_match "{" "}" response with
     | Some jsonMatch =>
         let! parsed := JSON_parse jsonMatch in
         Normal (Some parsed)
     | None => Normal None
     end)
    (analysis_fallback response).

Definition parseTasksFromResponse (response : string) : Completion json :=
  try_or_else
    (match String_match "[" "]" response with
     | Some jsonMatch =>
         let! parsed := JSON_parse jsonMatch in
         Normal (Some parsed)
     | None => Normal None
     end)
    (JArr []).

(** ** The data model ([src/types/index.ts]) *)

(** A [Date] object holds a time value: milliseconds since the epoch, or NaN
    for an Invalid Date. *)
Record Date : Type := mkDate { getTime : num }.

Inductive Priority : Type := low | medium | high | urgent.

Inductive Status : Type := todo | in_progress | completed | cancelled.

Record Task : Type := mkTask {
  id : string;
  title : string;
  description : option string;
  priority : Priority;
  status : Status;
  category : string;
  dueDate : option Date;
  createdAt : Date;
  updatedAt : Date;
  tags : list string;
  aiGenerated : bool;
  sourceDocument : option string
}.

Inductive SortOption : Type :=
| SortPriority
| SortDueDate
| SortCreatedAt
| SortTitle
| SortStatus.

(** The field [completed] of the source is [completedCount] here, [completed]
    being a status. *)
Record TaskStats : Type := mkTaskStats {
  total : Z;
  completedCount : Z;
  inProgress : Z;
  overdue : Z;
  byPriority : Priority -> Z;
  byCategory : gmap string num
}.

Definition Priority_eqb (a b : Priority) : bool :=
  match a, b with
  | low, low | medium, medium | high, high | urgent, urgent => true
  | _, _ => false
  end.

Definition Status_eqb (a b : Status) : bool :=
  match a, b with
  | todo, todo | in_progress, in_progress
  | completed, completed | cancelled, cancelled => true
  | _, _ => false
  end.

(** Relational operators applied to [Date] objects compare their time values. *)
Definition Date_lt (a b : Date) : bool := num_lt (getTime a) (getTime b).
Definition Date_ge (a b : Date) : bool := num_ge (getTime a) (getTime b).

(** A typed [Task] seen as the object it is at run time. *)
Definition Priority_to_string (p : Priority) : string :=
  match p with
  | low => "low"
  | medium => "medium"
  | high => "high"
  | urgent => "urgent"
  end.

Definition Status_to_string (s : Status) : string :=
  match s with
  | todo => "todo"
  | in_progress => "in-progress"
  | completed => "completed"
  | cancelled => "cancelled"
  end.

Definition optional_field {A : Type} (k : string) (f : A -> value) (o : option A)
  : list literal_item :=
  match o with
  | Some a => [Field k (f a)]
  | None => []
  end.

Definition Task_to_object (t : Task) : JsObject :=
  object_literal
    ([ Field "id" (VStr (id t));
       Field "title" (VStr (title t)) ]
     ++ optional_field "description" VStr (description t)
     ++ [ Field "priority" (VStr (Priority_to_string (priority t)));
          Field "status" (VStr (Status_to_string (status t)));
          Field "category" (VStr (category t)) ]
     ++ optional_field "dueDate" (fun d => VDate (getTime d)) (dueDate t)
     ++ [ Field "createdAt" (VDate (getTime (createdAt t)));
          Field "updatedAt" (VDate (getTime (updatedAt t)));
          Field "tags" (VJson (JArr (map JStr (tags t))));
          Field "aiGenerated" (VBool (aiGenerated t)) ]
     ++ optional_field "sourceDocument" VStr (sourceDocument t)).

(** ** [Array.prototype.sort] and [Array.prototype.findIndex]

    ECMAScript requires the sort to be stable, and a comparator result of NaN
    counts as zero. Modelled by the stable insertion sort: an element is
    moved past exactly those sorted elements it compares greater than. *)

Definition comes_after (v : num) : bool :=
  match v with
  | Num z => 0 <? z
  | NaN => false
  end.

Fixpoint sort_insert {A : Type} (comparefn : A -> A -> num) (x : A) (l : list A) : list A :=
  match l with
  | [] => [x]
  | y :: r =>
      if comes_after (comparefn x y) then y :: sort_insert comparefn x r
      else x :: y :: r
  end.

Fixpoint Array_sort {A : Type} (comparefn : A -> A -> num) (l : list A) : list A :=
  match l with
  | [] => []
  | x :: r => sort_insert comparefn x (Array_sort comparefn r)
  end.

Fixpoint findIndex {A : Type} (p : A -> bool) (l : list A) : option nat :=
  match l with
  | [] => None
  | x :: r => if p x then Some O else option_map S (findIndex p r)
  end.

(** ** Sorting, statistics and date filters ([src/lib/task-utils.ts]) *)

Definition priorityOrder (p : Priority) : Z :=
  match p with
  | urgent => 4
  | high => 3
  | medium => 2
  | low => 1
  end.

Definition statusOrder (s : Status) : Z :=
  match s with
  | todo => 1
  | in_progress => 2
  | completed => 3
  | cancelled => 4
  end.

(** [new Date('9999-12-31')]: midnight UTC of that day. *)
Definition Date_9999_12_31 : Date := mkDate (Num 253402214400000).

Section SortTasks.

(** [String.prototype.localeCompare] depends on the host's collation. *)
Variable localeCompare : string -> string -> Z.

Definition sortComparison (sortBy : SortOption) (a b : Task) : num :=
  match sortBy with
  | SortPriority => Num (priorityOrder (priority a) - priorityOrder (priority b))
  | SortDueDate =>
      let aDate := match dueDate a with Some d => d | None => Date_9999_12_31 end in
      let bDate := match dueDate b with Some d => d | None => Date_9999_12_31 end in
      num_sub (getTime aDate) (getTime bDate)
  | SortCreatedAt => num_sub (getTime (createdAt a)) (getTime (createdAt b))
  | SortTitle => Num (localeCompare (title a) (title b))
  | SortStatus => Num (statusOrder (status a) - statusOrder (status b))
  end.

(** [sortTasks(tasks, sortBy, ascending = false)]: the third argument may be
    left out. *)
Definition sortTasks (tasks : list Task) (sortBy : SortOption) (ascending : option bool)
  : list Task :=
  let ascending := match ascending with Some b => b | None => false end in
  Array_sort
    (fun a b =>
       let comparison := sortComparison sortBy a b in
       if ascending then comparison else num_neg comparison)
    tasks.

End SortTasks.

Definition bump_priority (f : Priority -> Z) (p : Priority) : Priority -> Z :=
  fun q => if Priority_eqb q p then f q + 1 else f q.

(** The histogram [byCategory] starts as the object literal [{}], whose
    prototype is [Object.prototype]: reading a key that the histogram does
    not hold itself finds what the prototype has under that name. These are
    the methods of the prototype; besides them it has the accessor
    [__proto__]. *)
Definition Object_prototype_method (k : string) : bool :=
  existsb (String.eqb k)
    [ "constructor"; "hasOwnProperty"; "isPrototypeOf"; "propertyIsEnumerable";
      "toLocaleString"; "toString"; "valueOf";
      "__defineGetter__"; "__defineSetter__"; "__lookupGetter__"; "__lookupSetter__" ].

(** [if (!m[c]) m[c] = 0; m[c]++], where [m] holds the own properties of the
    histogram.
    - Under [__proto__] the prototype itself is read, which is truthy and
      NaN as a number; the assignment of NaN goes to the setter of
      [__proto__], which ignores a value that is not an object.
    - Under the name of a method the function is read as long as the
      histogram has no property of its own by that name: it is truthy and
      NaN as a number, and the increment stores NaN in the histogram.
    - A counter that is absent, zero or NaN is falsy and starts again at
      zero. *)
Definition bump_category (m : gmap string num) (c : string) : gmap string num :=
  if String.eqb c "__proto__" then m
  else
    let m0 :=
      match m !! c with
      | Some (Num n) => if n =? 0 then <[c := Num 0]> m else m
      | Some NaN => <[c := Num 0]> m
      | None => if Object_prototype_method c then m else <[c := Num 0]> m
      end in
    match m0 !! c with
    | Some (Num n) => <[c := Num (n + 1)]> m0
    | Some NaN | None => <[c := NaN]> m0
    end.

(** The overdue test inside [calculateTaskStats]. *)
Definition stats_overdue (now : Date) (task : Task) : bool :=
  match dueDate task with
  | Some d => Date_lt d now && negb (Status_eqb (status task) completed)
  | None => false
  end.

(** The body of the [forEach] callback of [calculateTaskStats]. *)
Definition stats_step (now : Date) (stats : TaskStats) (task : Task) : TaskStats :=
  let completed1 :=
    if Status_eqb (status task) completed then completedCount stats + 1
    else completedCount stats in
  let inProgress1 :=
    if Status_eqb (status task) completed then inProgress stats
    else if Status_eqb (status task) in_progress then inProgress stats + 1
    else inProgress stats in
  let overdue1 :=
    if stats_overdue now task then overdue stats + 1 else overdue stats in
  mkTaskStats (total stats) completed1 inProgress1 overdue1
    (bump_priority (byPriority stats) (priority task))
    (bump_category (byCategory stats) (category task)).

(** [calculateTaskStats(tasks)], with the reading [now] of [new Date()]. *)
Definition calculateTaskStats (now : Date) (tasks : list Task) : TaskStats :=
  fold_left (stats_step now)
    tasks
    (mkTaskStats (Z.of_nat (length tasks)) 0 0 0 (fun _ => 0) ∅).

Definition msPerDay : Z := 86400000.

Definition msPerHour : Z := 3600000.

(** TimeClip: a time value is at most 8.64e15 milliseconds away from the
    epoch; a [Date] set beyond that is an Invalid Date. *)
Definition TimeClip (t : Z) : num :=
  if Z.abs t <=? 8640000000000000 then Num t else NaN.

(** *** Local time

    The time zone of the host is an argument: [LocalTZA t true] is the
    offset of local time from UTC, in milliseconds, at the instant [t], and
    [LocalTZA t false] the offset at the local time [t]. Where a change of
    the clocks skips or repeats the local time [t], the host takes the
    offset from before the change. *)

Section LocalTime.

Variable LocalTZA : Z -> bool -> Z.

Definition LocalTime (t : Z) : Z := t + LocalTZA t true.

Definition UTC (t : Z) : Z := t - LocalTZA t false.

(** [d.setHours(0, 0, 0, 0)]: the day of the local time of [d] with the
    time within the day set to zero, taken back to UTC. *)
Definition setHours0 (d : Date) : Date :=
  match getTime d with
  | Num t =>
      let local := LocalTime t in
      mkDate (TimeClip (UTC (local - local mod msPerDay)))
  | NaN => mkDate NaN
  end.

(** [d.setDate(d.getDate() + n)]: the local time of [d] moved [n] days
    ahead in the calendar, with the same time within the day, taken back to
    UTC. *)
Definition setDatePlus (n : Z) (d : Date) : Date :=
  match getTime d with
  | Num t => mkDate (TimeClip (UTC (LocalTime t + n * msPerDay)))
  | NaN => mkDate NaN
  end.

(** [getTasksDueToday(tasks)], with the reading [now] of [new Date()]. *)
Definition getTasksDueToday (now : Date) (tasks : list Task) : list Task :=
  let today := setHours0 now in
  let tomorrow := setDatePlus 1 today in
  List.filter
    (fun task =>
       match dueDate task with
       | None => false
       | Some d =>
           let dueDate := setHours0 d in
           Date_ge dueDate today && Date_lt dueDate tomorrow
       end)
    tasks.

End LocalTime.

(** [getOverdueTasks(tasks)], with the reading [now] of [new Date()]. *)
Definition getOverdueTasks (now : Date) (tasks : list Task) : list Task :=
  List.filter
    (fun task =>
       match dueDate task with
       | Some d =>
           Date_lt d now
           && negb (Status_eqb (status task) completed)
           && negb (Status_eqb (status task) cancelled)
       | None => false
       end)
    tasks.

(** [updateTask(task, updates)], with the reading [now] of [new Date()]. The
    spread copies every own property of [updates], whatever its value. *)
Definition updateTask (now : Date) (task updates : JsObject) : JsObject :=
  object_literal
    [ Spread task;
      Spread updates;
      Field "updatedAt" (VDate (getTime now)) ].

(** ** The task reconciler (the [processedTasks] maps of the two routes) *)

(** What one call of the map callback reads from its environment:
    [new Date()], [Date.now()] and
    [Math.random().toString(36).substr(2, 9)]. *)
Record Reading : Type := mkReading {
  read_now : Z;
  read_Date_now : Z;
  read_random : string
}.

(** [`task_${Date.now()}_${Math.random().toString(36).substr(2, 9)}`] *)
Definition generated_id (rd : Reading) : string :=
  "task_" +:+ pretty (read_Date_now rd) +:+ "_" +:+ read_random rd.

Section Reconciler.

(** [new Date(v)] for a value [v] out of [JSON.parse]: the parse of date
    strings is left to the host outside the ISO format. *)
Variable new_Date : json -> num.

(** [new Date(v)] for any value: a [Date] is copied, and [undefined] gives an
    Invalid Date. *)
Definition new_Date_of (v : value) : num :=
  match v with
  | VJson j => new_Date j
  | VDate t => t
  | VUndefined => NaN
  end.

(** [...(taskData.dueDate && { dueDate: new Date(taskData.dueDate) })]:
    a falsy left operand spreads no property. *)
Definition dueDate_spread (d : value) : JsObject :=
  if truthy d then object_literal [Field "dueDate" (VDate (new_Date_of d))]
  else ∅.

(** The callback of [generatedTasks.map] in
    [src/app/api/tasks/ai-generate/route.ts]. *)
Definition processGeneratedTask (rd : Reading) (taskData : json) : Completion JsObject :=
  let now := VDate (Num (read_now rd)) in
  let! title := get_prop taskData "title" in
  let! description := get_prop taskData "description" in
  let! priority := get_prop taskData "priority" in
  let! category := get_prop taskData "category" in
  let! tags := get_prop taskData "tags" in
  let! dueDate := get_prop taskData "dueDate" in
  Normal (object_literal
    [ Field "id" (VStr (generated_id rd));
      Field "title" (js_or title (VStr "Untitled Task"));
      Field "description" (js_or description (VStr EmptyString));
      Field "priority" (js_or priority (VStr "medium"));
      Field "status" (VStr "todo");
      Field "category" (js_or category (VStr "general"));
      Field "createdAt" now;
      Field "updatedAt" now;
      Field "tags" (js_or tags VEmptyArray);
      Field "aiGenerated" (VBool true);
      Spread (dueDate_spread dueDate) ]).

(** The callback of [extractedTasks.map] in
    [src/app/api/documents/extract-tasks/route.ts]; [documentName] is
    [document.name]. *)
Definition processExtractedTask (documentName : string) (rd : Reading) (taskData : json)
  : Completion JsObject :=
  let now := VDate (Num (read_now rd)) in
  let! title := get_prop taskData "title" in
  let! description := get_prop taskData "description" in
  let! priority := get_prop taskData "priority" in
  let! category := get_prop taskData "category" in
  let! tags := get_prop taskData "tags" in
  let! dueDate := get_prop taskData "dueDate" in
  Normal (object_literal
    [ Field "id" (VStr (generated_id rd));
      Field "title" (js_or title (VStr "Untitled Task"));
      Field "description" (js_or description (VStr EmptyString));
      Field "priority" (js_or priority (VStr "medium"));
      Field "status" (VStr "todo");
      Field "category" (js_or category (VStr "general"));
      Field "createdAt" now;
      Field "updatedAt" now;
      Field "tags" (js_or tags VEmptyArray);
      Field "aiGenerated" (VBool true);
      Field "sourceDocument" (VStr documentName);
      Spread (dueDate_spread dueDate) ]).

(** [array.map(callback)]: the callback runs on the elements in order, the
    [i]-th call with the readings [readings i]; an exception ends the map. *)
Fixpoint Array_map (callback : Reading -> json -> Completion JsObject)
    (readings : nat -> Reading) (i : nat) (items : list json)
  : Completion (list JsObject) :=
  match items with
  | [] => Normal []
  | taskData :: rest =>
      let! task := callback (readings i) taskData in
      let! tasks := Array_map callback readings (S i) rest in
      Normal (task :: tasks)
  end.

(** [processedTasks] of the task generation route. *)
Definition processGeneratedTasks (readings : nat -> Reading) (generatedTasks : list json)
  : Completion (list JsObject) :=
  Array_map processGeneratedTask readings 0%nat generatedTasks.

(** [processedTasks] of the document extraction route. *)
Definition processExtractedTasks (documentName : string) (readings : nat -> Reading)
    (extractedTasks : list json) : Completion (list JsObject) :=
  Array_map (processExtractedTask documentName) readings 0%nat extractedTasks.

End Reconciler.

(** ** The PUT handler of the task CRUD route *)

Inductive PutResponse : Type :=
| Put400
| Put404
| Put500
| Put200 (updatedTask : JsObject).

Section PutHandler.

Variable new_Date : json -> num.

(** The object literal that makes [updatedTask]. *)
Definition PUT_updatedTask (now : Date) (stored : JsObject) (taskData : list (string * json))
  : JsObject :=
  object_literal
    [ Spread stored;
      Spread (object_of_members taskData);
      Field "updatedAt" (VDate (getTime now));
      Spread (dueDate_spread new_Date (member "dueDate" taskData)) ].

(** [PUT(request)] with the body [taskData] of the request and the reading
    [now] of [new Date()]: the response and the store afterwards. Reading
    [taskData.id] throws when the body is [null], and an exception is
    answered with status 500; a body that is not an object has no [id]. *)
Definition PUT (now : Date) (tasksStore : list JsObject) (taskData : json)
  : PutResponse * list JsObject :=
  match taskData with
  | JNull => (Put500, tasksStore)
  | JObj ms =>
      if negb (truthy (member "id" ms)) then (Put400, tasksStore)
      else
        match findIndex (fun task => strict_equals (object_get task "id") (member "id" ms))
                tasksStore with
        | None => (Put404, tasksStore)
        | Some taskIndex =>
            let stored :=
              match tasksStore !! taskIndex with
              | Some task => task
              | None => ∅
              end in
            let updatedTask := PUT_updatedTask now stored ms in
            (Put200 updatedTask, <[taskIndex := updatedTask]> tasksStore)
        end
  | _ => (Put400, tasksStore)
  end.

End PutHandler.

(** ** A host's [Date] constructor, for the examples

    [new Date(string)] must read the ISO format and may read more; this host
    reads the date-only form [YYYY-MM-DD] (midnight UTC of that day) and makes
    an Invalid Date of any other string. A number is taken as the time value
    when it is an integer. *)

(** Days from 1970-01-01 to the given day of the proleptic Gregorian calendar. *)
Definition days_from_civil (y m d : Z) : Z :=
  let y' := if m <=? 2 then y - 1 else y in
  let era := y' / 400 in
  let yoe := y' - era * 400 in
  let mp := (m + 9) mod 12 in
  let doy := (153 * mp + 2) / 5 + d - 1 in
  let doe := yoe * 365 + yoe / 4 - yoe / 100 + doy in
  era * 146097 + doe - 719468.

Definition is_leap_year (y : Z) : bool :=
  ((y mod 4 =? 0) && negb (y mod 100 =? 0)) || (y mod 400 =? 0).

Definition days_in_month (y m : Z) : Z :=
  if m =? 2 then (if is_leap_year y then 29 else 28)
  else if (m =? 4) || (m =? 6) || (m =? 9) || (m =? 11) then 30
  else 31.

Definition iso_date_only (s : string) : num :=
  match list_ascii_of_string s with
  | [y1; y2; y3; y4; h1; m1; m2; h2; d1; d2] =>
      match digit_of y1, digit_of y2, digit_of y3, digit_of y4,
            digit_of m1, digit_of m2, digit_of d1, digit_of d2 with
      | Some a, Some b, Some c, Some d, Some e, Some f, Some g, Some h =>
          let y := ((a * 10 + b) * 10 + c) * 10 + d in
          let m := e * 10 + f in
          let dd := g * 10 + h in
          if Ascii.eqb h1 "-" && Ascii.eqb h2 "-"
             && (1 <=? m) && (m <=? 12) && (1 <=? dd) && (dd <=? days_in_month y m)
          then Num (days_from_civil y m dd * msPerDay)
          else NaN
      | _, _, _, _, _, _, _, _ => NaN
      end
  | _ => NaN
  end.

Definition host_new_Date (j : json) : num :=
  match j with
  | JStr s => iso_date_only s
  | JNum m e => if 0 <=? e then Num (m * 10 ^ e) else NaN
  | _ => NaN
  end.

(** ** Notions used to state the properties *)

(** The response is malformed for a pattern when nothing matches it, or when
    [JSON.parse] rejects the match. *)
Definition unparseable (o c : ascii) (response : string) : bool :=
  match String_match o c response with
  | None => true
  | Some jsonMatch =>
      match JSON_parse jsonMatch with
      | Normal _ => false
      | Throw _ => true
      end
  end.

(** The specification's reading of the span that is parsed: from the first
    opening bracket, scanning left to right, through the closing bracket that
    corresponds to it, the one at which the brackets opened since are all
    closed again. [balanced_prefix] is the text after the opening bracket up
    to that close, [depth] brackets being open inside. *)
Fixpoint balanced_prefix (o c : ascii) (depth : nat) (s : list ascii) : option (list ascii) :=
  match s with
  | [] => None
  | x :: r =>
      if Ascii.eqb x c then
        match depth with
        | O => Some [x]
        | S d => option_map (cons x) (balanced_prefix o c d r)
        end
      else if Ascii.eqb x o then option_map (cons x) (balanced_prefix o c (S depth) r)
      else option_map (cons x) (balanced_prefix o c depth r)
  end.

Fixpoint first_balanced_span (o c : ascii) (s : list ascii) : option (list ascii) :=
  match s with
  | [] => None
  | x :: r =>
      if Ascii.eqb x o then option_map (cons x) (balanced_prefix o c 0 r)
      else first_balanced_span o c r
  end.

Definition spec_first_span (o c : ascii) (response : string) : option string :=
  option_map string_of_list_ascii (first_balanced_span o c (list_ascii_of_string response)).

(** Larger keys first: [a] may stand before [b]. *)
Definition key_desc {A : Type} (key : A -> Z) (a b : A) : Prop := key b <= key a.

(** The tasks that [calculateTaskStats] counts as overdue and
    [getOverdueTasks] leaves out. *)
Definition cancelled_and_due (now : Date) (task : Task) : bool :=
  match dueDate task with
  | Some d => Date_lt d now && Status_eqb (status task) cancelled
  | None => false
  end.

(** The specification's reading of "due today": the task has a due date whose
    time value lies in the half-open interval from [lo] to [hi]. *)
Definition due_within (lo hi : Z) (task : Task) : bool :=
  match dueDate task with
  | Some d =>
      match getTime d with
      | Num t => (lo <=? t) && (t <? hi)
      | NaN => false
      end
  | None => false
  end.

(** The number of the local day in which the instant [t] lies. *)
Definition local_day (LocalTZA : Z -> bool -> Z) (t : Z) : Z :=
  LocalTime LocalTZA t / msPerDay.

(** The instant at which the local day [n] starts: 00:00 of that day, taken
    to UTC. *)
Definition day_start (LocalTZA : Z -> bool -> Z) (n : Z) : Z :=
  UTC LocalTZA (n * msPerDay).

(** The start of the local day in which the instant [t] lies. *)
Definition start_of_day (LocalTZA : Z -> bool -> Z) (t : Z) : Z :=
  day_start LocalTZA (local_day LocalTZA t).

(** A host at a fixed offset from UTC. *)
Definition fixed_offset (tz : Z) : Z -> bool -> Z := fun _ _ => tz.

(** America/Santiago between April 2024 and April 2025: four hours behind
    UTC until daylight saving time starts on 2024-09-08 at 04:00 UTC, when
    the local clocks go from 24:00 of 2024-09-07 to 01:00, and three hours
    behind from then on. The local times from 00:00 to 01:00 of 2024-09-08
    are skipped and read with the offset from before the change. *)
Definition America_Santiago (t : Z) (isUTC : bool) : Z :=
  if isUTC then
    if t <? 1725768000000 then -4 * msPerHour else -3 * msPerHour
  else
    if t <? 1725757200000 then -4 * msPerHour else -3 * msPerHour.

(** America/New_York between November 2023 and November 2024: five hours
    behind UTC until daylight saving time starts on 2024-03-10 at 07:00 UTC,
    when the local clocks go from 02:00 to 03:00, and four hours behind from
    then on. *)
Definition America_New_York (t : Z) (isUTC : bool) : Z :=
  if isUTC then
    if t <? 1710054000000 then -5 * msPerHour else -4 * msPerHour
  else
    if t <? 1710039600000 then -5 * msPerHour else -4 * msPerHour.

(** One white space character, as [sp1], [sp2] and [sp3] tell them. *)
Inductive space_char_by (sp1 : ascii -> bool) (sp2 : ascii -> ascii -> bool)
    (sp3 : ascii -> ascii -> ascii -> bool) : list ascii -> Prop :=
| space_char_1 (a : ascii) : sp1 a = true -> space_char_by sp1 sp2 sp3 [a]
| space_char_2 (a b : ascii) : sp2 a b = true -> space_char_by sp1 sp2 sp3 [a; b]
| space_char_3 (a b c : ascii) : sp3 a b c = true -> space_char_by sp1 sp2 sp3 [a; b; c].

(** A text that is white space characters from end to end. *)
Inductive spaces_by (sp1 : ascii -> bool) (sp2 : ascii -> ascii -> bool)
    (sp3 : ascii -> ascii -> ascii -> bool) : list ascii -> Prop :=
| spaces_nil : spaces_by sp1 sp2 sp3 []
| spaces_app (w l : list ascii) :
    space_char_by sp1 sp2 sp3 w -> spaces_by sp1 sp2 sp3 l ->
    spaces_by sp1 sp2 sp3 (w ++ l).

(** The bytes of one white space character or line terminator. *)
Definition space_char : list ascii -> Prop :=
  space_char_by is_js_space is_js_space2 is_js_space3.

(** Nothing but white space and line terminators. *)
Definition white_space : list ascii -> Prop :=
  spaces_by is_js_space is_js_space2 is_js_space3.

(** A reply with a no-break space (U+00A0) in front of it and spaces and a
    line feed after it. *)
Definition padded_reply : string :=
  String "194" (String "160" (" All done.  " ++ String "010" EmptyString)).

(** How often a category occurs in a list of categories. *)
Definition occurrences (c : string) (categories : list string) : nat :=
  length (List.filter (String.eqb c) categories).

(** The counter that the histogram holds for the category [c] after [n]
    tasks of that category. *)
Definition category_counter (c : string) (n : nat) : option num :=
  let n := Z.of_nat n in
  if String.eqb c "__proto__" then None
  else if Object_prototype_method c then
    if n =? 0 then None else if n =? 1 then Some NaN else Some (Num (n - 1))
  else
    if n =? 0 then None else Some (Num n).

(** A task of the category [c]. *)
Definition sample_task_in (c : string) : Task :=
  mkTask "task_1" "Write report" None medium todo c None
    (mkDate (Num 1000)) (mkDate (Num 1000)) [] false None.



(** ** Sample responses, tasks, records and readings *)

(** Text with apostrophes standing for double quotes, to write JSON samples. *)
Definition json_text (s : string) : string :=
  string_of_list_ascii
    (map (fun a => if Ascii.eqb a "'" then "034"%char else a) (list_ascii_of_string s)).

Definition plain_reply : string := "Sure! Here's your answer without JSON.".

Definition analysis_reply : string :=
  json_text "Some preamble {'summary':'ok','insights':['a','b']} trailing text".

Definition two_objects_reply : string :=
  json_text "{'response':'a'} and {'response':'b'}".

Definition two_arrays_reply : string :=
  json_text "[{'title':'a'}] or [{'title':'b'}]".

(** The value the specification expects for [analysis_reply]. *)
Definition analysis_with_defaults : json :=
  JObj [ ("summary", JStr "ok");
         ("insights", JArr [JStr "a"; JStr "b"]);
         ("extractedTasks", JArr []);
         ("keyTopics", JArr []);
         ("actionItems", JArr []) ].

Definition sample_task (i : string) (s : Status) (p : Priority) (due : option Date) : Task :=
  mkTask i "Write report" None p s "work" due
    (mkDate (Num 1000)) (mkDate (Num 1000)) [] false None.

(** A cancelled task whose due date has passed. *)
Definition cancelled_past_due : Task :=
  sample_task "task_1" cancelled medium (Some (mkDate (Num 1000))).

(** A stored task and two change sets. *)
Definition stored_task : Task :=
  sample_task "task_1" todo medium None.

Definition changes_status : JsObject :=
  object_literal [Field "status" (VStr "completed")].

Definition changes_id : JsObject :=
  object_literal [Field "id" (VStr "task_other")].

Definition changes_createdAt : JsObject :=
  object_literal [Field "createdAt" (VDate (Num 5000))].

Definition reading_1 : Reading := mkReading 1710500000000 1710500000001 "k3j9x0a1b".

Definition reading_2 : Reading := mkReading 1710500000000 1710500000001 "z8y7w6v5u".

Definition readings_1 (i : nat) : Reading :=
  match i with
  | O => reading_1
  | _ => reading_2
  end.

Definition buy_milk : json := JObj [("title", JStr "Buy milk")].



Definition record_bad_date : json :=
  JObj [("title", JStr "Send invoice"); ("dueDate", JStr "next Friday-ish")].

Definition record_good_date : json :=
  JObj [("title", JStr "Send invoice"); ("dueDate", JStr "2024-03-15")].

(** A request that names the stored task and carries a creation time. *)
Definition put_request : json :=
  JObj [("id", JStr "task_1"); ("createdAt", JStr "2001-01-01")].

(** * More of the code *)

(** ** Filters and task construction ([src/lib/task-utils.ts]) *)

(** [a <= b]: false as soon as one side is NaN. *)
Definition num_le (a b : num) : bool :=
  match a, b with
  | Num x, Num y => x <=? y
  | _, _ => false
  end.

Definition Date_le (a b : Date) : bool := num_le (getTime a) (getTime b).

Record DateRange : Type := mkDateRange {
  range_start : Date;
  range_end : Date
}.

(** The type [TaskFilter]; a field left out is [None]. *)
Record TaskFilter : Type := mkTaskFilter {
  filter_status : option (list Status);
  filter_priority : option (list Priority);
  filter_category : option (list string);
  filter_dateRange : option DateRange;
  filter_aiGenerated : option bool
}.

(** [list.includes(x)] *)
Definition includes {A : Type} (eqb : A -> A -> bool) (l : list A) (x : A) : bool :=
  existsb (eqb x) l.

(** The callback of [tasks.filter] in [filterTasks]: an array is truthy even
    when it is empty, so a criterion that is present is always applied. *)
Definition filter_accepts (filter : TaskFilter) (task : Task) : bool :=
  match filter_status filter with
  | Some l => includes Status_eqb l (status task)
  | None => true
  end
  && match filter_priority filter with
     | Some l => includes Priority_eqb l (priority task)
     | None => true
     end
  && match filter_category filter with
     | Some l => includes String.eqb l (category task)
     | None => true
     end
  && match filter_aiGenerated filter with
     | Some b => Bool.eqb (aiGenerated task) b
     | None => true
     end
  && match filter_dateRange filter with
     | Some range =>
         let taskDate := match dueDate task with Some d => d | None => createdAt task end in
         negb (Date_lt taskDate (range_start range) || Date_lt (range_end range) taskDate)
     | None => true
     end.

Definition filterTasks (tasks : list Task) (filter : TaskFilter) : list Task :=
  List.filter (filter_accepts filter) tasks.

(** [getUpcomingTasks(tasks)]: [now] and [now'] are its two readings of
    [new Date()], the second one moved seven days ahead by [setDate]. *)
Definition getUpcomingTasks (LocalTZA : Z -> bool -> Z) (now now' : Date)
    (tasks : list Task) : list Task :=
  let nextWeek := setDatePlus LocalTZA 7 now' in
  List.filter
    (fun task =>
       match dueDate task with
       | Some d =>
           Date_ge d now && Date_le d nextWeek
           && negb (Status_eqb (status task) completed)
       | None => false
       end)
    tasks.

(** [completeTask(task)] *)
Definition completeTask (now : Date) (task : JsObject) : JsObject :=
  updateTask now task (object_literal [Field "status" (VStr "completed")]).

(** [createTask(partial)]: [rd] holds its readings of [new Date()] and of
    the clock and random source inside [generateTaskId]. *)
Definition createTask (rd : Reading) (partial : JsObject) : JsObject :=
  let now := VDate (Num (read_now rd)) in
  object_literal
    [ Field "id" (VStr (generated_id rd));
      Field "title" (VStr EmptyString);
      Field "priority" (VStr "medium");
      Field "status" (VStr "todo");
      Field "category" (VStr "general");
      Field "createdAt" now;
      Field "updatedAt" now;
      Field "tags" VEmptyArray;
      Field "aiGenerated" (VBool false);
      Spread partial ].

(** ** The task board ([src/components/TaskBoard.tsx]) *)

(** [handleTaskUpdate(updatedTask)]: the new task list. *)
Definition handleTaskUpdate (tasks : list Task) (updatedTask : Task) : list Task :=
  map (fun task => if String.eqb (id task) (id updatedTask) then updatedTask else task) tasks.

(** [handleTaskDelete(taskId)]: the new task list; [confirmed] is the answer
    to the confirmation dialog, and the list stays as it is without it. *)
Definition handleTaskDelete (confirmed : bool) (tasks : list Task) (taskId : string)
  : list Task :=
  if confirmed then List.filter (fun task => negb (String.eqb (id task) taskId)) tasks
  else tasks.

Section TaskBoardSort.

Variable localeCompare : string -> string -> Z.

(** The comparator of [sortedTasks]; [sortBy] is the state of the selector. *)
Definition TaskBoard_compare (sortBy : string) (a b : Task) : num :=
  if String.eqb sortBy "priority" then
    Num (priorityOrder (priority b) - priorityOrder (priority a))
  else if String.eqb sortBy "dueDate" then
    match dueDate a, dueDate b with
    | None, None => Num 0
    | None, Some _ => Num 1
    | Some _, None => Num (-1)
    | Some da, Some db => num_sub (getTime da) (getTime db)
    end
  else if String.eqb sortBy "created" then
    num_sub (getTime (createdAt b)) (getTime (createdAt a))
  else Num (localeCompare (title a) (title b)).

Definition TaskBoard_sortedTasks (sortBy : string) (filteredTasks : list Task) : list Task :=
  Array_sort (TaskBoard_compare sortBy) filteredTasks.

End TaskBoardSort.

(** ** The other handlers of the task CRUD route *)

Inductive PostResponse : Type :=
| Post400
| Post500
| Post201 (newTask : JsObject).

Inductive DeleteResponse : Type :=
| Delete400
| Delete404
| Delete200 (deletedTask : option JsObject).

(** [typeof v === 'string'] *)
Definition is_string (v : value) : bool :=
  match v with
  | VJson (JStr _) => true
  | _ => false
  end.

(** [...(v && { key: v })] *)
Definition truthy_spread (key : string) (v : value) : JsObject :=
  if truthy v then object_literal [Field key v] else ∅.

Section TaskRoute.

Variable new_Date : json -> num.

(** [POST(request)] with the body [taskData] of the request: the response
    and the store afterwards. [rd] holds the readings of the clock and the
    random source for the id and the reading of [new Date()] for
    [createdAt]; [updatedAt] is a second reading, [now']. *)
Definition POST (rd : Reading) (now' : Z) (tasksStore : list JsObject) (taskData : json)
  : PostResponse * list JsObject :=
  match taskData with
  | JNull => (Post500, tasksStore)
  | JObj ms =>
      if negb (truthy (member "title" ms)) || negb (is_string (member "title" ms))
      then (Post400, tasksStore)
      else
        let newTask :=
          object_literal
            [ Field "id" (VStr (generated_id rd));
              Field "title" (member "title" ms);
              Field "description" (js_or (member "description" ms) (VStr EmptyString));
              Field "priority" (js_or (member "priority" ms) (VStr "medium"));
              Field "status" (js_or (member "status" ms) (VStr "todo"));
              Field "category" (js_or (member "category" ms) (VStr "general"));
              Field "createdAt" (VDate (Num (read_now rd)));
              Field "updatedAt" (VDate (Num now'));
              Field "tags" (js_or (member "tags" ms) VEmptyArray);
              Field "aiGenerated" (js_or (member "aiGenerated" ms) (VBool false));
              Spread (dueDate_spread new_Date (member "dueDate" ms));
              Spread (truthy_spread "sourceDocument" (member "sourceDocument" ms)) ] in
        (Post201 newTask, tasksStore ++ [newTask])
  | _ => (Post400, tasksStore)
  end.

(** [DELETE(request)]; [taskId] is [searchParams.get('id')], [None] when the
    address has no such parameter. [splice(taskIndex, 1)] takes the task at
    the index out of the store. *)
Definition DELETE (tasksStore : list JsObject) (taskId : option string)
  : DeleteResponse * list JsObject :=
  match taskId with
  | None => (Delete400, tasksStore)
  | Some taskId =>
      if String.eqb taskId EmptyString then (Delete400, tasksStore)
      else
        match findIndex (fun task => strict_equals (object_get task "id") (VStr taskId))
                tasksStore with
        | None => (Delete404, tasksStore)
        | Some taskIndex =>
            (Delete200 (tasksStore !! taskIndex), delete taskIndex tasksStore)
        end
  end.

(** The conversions of the host that the comparisons of [GET] come to when a
    stored value is not what the types say: to a number and to a string. *)
Variable ToNumber : json -> num.
Variable ToString : value -> string.

(** The number that [v] is compared as against a [Date]. *)
Definition to_number (v : value) : num :=
  match v with
  | VDate t => t
  | VJson j => ToNumber j
  | VUndefined => NaN
  end.

(** [priorityOrder[v]] as a number: the order of the four priorities, NaN
    for every other key. *)
Definition priorityOrder_of (v : value) : num :=
  let key := match v with VJson (JStr s) => s | _ => ToString v end in
  if String.eqb key "urgent" then Num 4
  else if String.eqb key "high" then Num 3
  else if String.eqb key "medium" then Num 2
  else if String.eqb key "low" then Num 1
  else NaN.

(** A search parameter that is present and not empty. *)
Definition param_is (p : option string) (s : string) : bool :=
  match p with
  | Some x => String.eqb x s
  | None => false
  end.

Definition param_given (p : option string) : option string :=
  match p with
  | Some x => if String.eqb x EmptyString then None else Some x
  | None => None
  end.

(** [GET(request)] with the search parameters [filter], [sortBy], [category]
    and [status], the reading [now] of the clock and the time zone
    [LocalTZA] of the host: the tasks of the response ([total] is their
    number). *)
Definition GET (LocalTZA : Z -> bool -> Z) (now : Date) (tasksStore : list JsObject)
    (filter sortBy category status : option string) : list JsObject :=
  let filtered1 :=
    match param_given status with
    | Some s => List.filter (fun task => strict_equals (object_get task "status") (VStr s))
                  tasksStore
    | None => tasksStore
    end in
  let filtered2 :=
    match param_given category with
    | Some c => List.filter (fun task => strict_equals (object_get task "category") (VStr c))
                  filtered1
    | None => filtered1
    end in
  let filtered3 :=
    if param_is filter "today" then
      let today := setHours0 LocalTZA now in
      let tomorrow := setDatePlus LocalTZA 1 today in
      List.filter
        (fun task =>
           if negb (truthy (object_get task "dueDate")) then false
           else
             let dueDate :=
               setHours0 LocalTZA
                 (mkDate (new_Date_of new_Date (object_get task "dueDate"))) in
             Date_ge dueDate today && Date_lt dueDate tomorrow)
        filtered2
    else filtered2 in
  let filtered4 :=
    if param_is filter "overdue" then
      List.filter
        (fun task =>
           truthy (object_get task "dueDate")
           && num_lt (to_number (object_get task "dueDate")) (getTime now)
           && negb (strict_equals (object_get task "status") (VStr "completed"))
           && negb (strict_equals (object_get task "status") (VStr "cancelled")))
        filtered3
    else filtered3 in
  if param_is sortBy "priority" then
    Array_sort
      (fun a b => num_sub (priorityOrder_of (object_get b "priority"))
                    (priorityOrder_of (object_get a "priority")))
      filtered4
  else if param_is sortBy "dueDate" then
    Array_sort
      (fun a b =>
         if negb (truthy (object_get a "dueDate")) && negb (truthy (object_get b "dueDate"))
         then Num 0
         else if negb (truthy (object_get a "dueDate")) then Num 1
         else if negb (truthy (object_get b "dueDate")) then Num (-1)
         else num_sub (new_Date_of new_Date (object_get a "dueDate"))
                (new_Date_of new_Date (object_get b "dueDate")))
      filtered4
  else filtered4.

End TaskRoute.

(** ** Notions used to state the further properties *)

(** How many tasks pass a test. *)
Definition count_tasks (p : Task -> bool) (tasks : list Task) : Z :=
  Z.of_nat (length (List.filter p tasks)).

(** The task with another status and modification time. *)
Definition with_status (s : Status) (now : Date) (t : Task) : Task :=
  mkTask (id t) (title t) (description t) (priority t) s (category t) (dueDate t)
    (createdAt t) now (tags t) (aiGenerated t) (sourceDocument t).

(** The key that [sortTasks] orders due dates by. *)
Definition dueDate_key (t : Task) : Z :=
  match dueDate t with
  | Some d => match getTime d with Num z => z | NaN => 0 end
  | None => 253402214400000
  end.

Definition valid_dueDate (t : Task) : Prop :=
  match dueDate t with
  | Some d => exists z, getTime d = Num z
  | None => True
  end.

Definition no_criteria : TaskFilter := mkTaskFilter None None None None None.

(** A filter with a date range as its only criterion. *)
Definition only_dateRange (range : DateRange) : TaskFilter :=
  mkTaskFilter None None None (Some range) None.

(** The date that a date range is compared with. *)
Definition range_date (t : Task) : Date :=
  match dueDate t with
  | Some d => d
  | None => createdAt t
  end.

Definition week_range : DateRange :=
  mkDateRange (mkDate (Num 1000)) (mkDate (Num 9000)).

Definition invalid_due_task : Task :=
  sample_task "task_3" todo low (Some (mkDate NaN)).

(** The sign that turns a key into the key of the requested direction:
    larger keys first when descending, smaller keys first when ascending. *)
Definition direction_sign (ascending : bool) : Z := if ascending then -1 else 1.

(** A task that is due, at a valid date, before the date that stands for "no
    due date" in [sortTasks]. *)
Definition due_before_9999 (t : Task) : Prop :=
  exists d z, dueDate t = Some d /\ getTime d = Num z /\ z < 253402214400000.

Definition dated_task (i : string) (due : Z) : Task :=
  sample_task i todo medium (Some (mkDate (Num due))).

Definition undated_task (i : string) : Task :=
  sample_task i todo medium None.

Definition dated_and_undated : list Task :=
  [undated_task "task_a"; dated_task "task_b" 5000; dated_task "task_c" 3000].

(** The change set [{ status: s }]. *)
Definition status_change (s : Status) : JsObject :=
  object_literal [Field "status" (VStr (Status_to_string s))].

(** The task that [createTask] makes of an empty partial record. *)
Definition default_task (rd : Reading) : Task :=
  mkTask (generated_id rd) EmptyString None medium todo "general" None
    (mkDate (Num (read_now rd))) (mkDate (Num (read_now rd))) [] false None.

(** The tasks of a collection have different ids. *)
Definition unique_ids (tasks : list Task) : Prop := List.NoDup (map id tasks).

Definition three_tasks : list Task :=
  [ sample_task "task_a" todo low None;
    sample_task "task_b" in_progress high None;
    sample_task "task_c" completed medium None ].


(** No task of the store has the id [i]. *)
Definition id_free (i : string) (tasksStore : list JsObject) : Prop :=
  Forall (fun task => strict_equals (object_get task "id") (VStr i) = false) tasksStore.

Definition post_request : json :=
  JObj [("title", JStr "Water the plants"); ("dueDate", JStr "2024-03-15")].

(** A filter with one status as its only criterion. *)
Definition only_status (s : Status) : TaskFilter :=
  mkTaskFilter (Some [s]) None None None None.

(** ** [generateTasks] and the task generation route
       ([src/lib/ai-client.ts], [src/app/api/tasks/ai-generate/route.ts]) *)

(** [choices[0]]: reading an index of [undefined] or [null] throws; a string
    has its first character there, an array its first element, an object its
    property of that name. *)
Definition first_choice (choices : value) : Completion value :=
  match choices with
  | VUndefined | VJson JNull => Throw TypeError
  | VJson (JArr items) =>
      Normal (match items with
              | x :: _ => VJson x
              | [] => VUndefined
              end)
  | VJson (JObj ms) => Normal (member "0" ms)
  | VJson (JStr s) =>
      Normal (match s with
              | String c _ => VStr (String c EmptyString)
              | EmptyString => VUndefined
              end)
  | _ => Normal VUndefined
  end.

(** [v?.k] for the keys [message] and [content], which only an object can
    have: [undefined] for [undefined] and [null] as for every other value. *)
Definition optional_member (v : value) (k : string) : value :=
  match v with
  | VJson (JObj ms) => member k ms
  | _ => VUndefined
  end.

(** [parseTasksFromResponse(tasksResult)] for any value of [tasksResult]:
    only a string has the method [match], and the call on another value
    throws inside the [try]. *)
Definition parseTasksFromResponse_of (tasksResult : value) : Completion json :=
  match tasksResult with
  | VJson (JStr response) => parseTasksFromResponse response
  | _ => Normal (JArr [])
  end.

(** [generateTasks(input, context)]. [data] is what [fetch] and
    [response.json()] come to: [Throw] when the request fails, when the status
    is not ok and when the body is not JSON. Every exception is caught and
    one [Error] thrown in its place: [None]. *)
Definition generateTasks (data : Completion json) : option json :=
  match (let! data := data in
         let! choices := get_prop data "choices" in
         let! choice := first_choice choices in
         let tasksResult :=
           js_or (optional_member (optional_member choice "message") "content")
             (VStr EmptyString) in
         parseTasksFromResponse_of tasksResult)
  with
  | Normal tasks => Some tasks
  | Throw _ => None
  end.

Inductive GenerateResponse : Type :=
| Generate400
| Generate500
| Generate200 (tasks : list JsObject) (generated : nat).

Module AiGenerateRoute.

(** [POST(request)]: [body] is what [request.json()] comes to. Of the
    response with status 200 the fields [tasks] and [generated] are kept. *)
Definition POST (new_Date : json -> num) (readings : nat -> Reading)
    (body data : Completion json) : GenerateResponse :=
  match body with
  | Throw _ => Generate500
  | Normal body =>
      match get_prop body "input" with
      | Throw _ => Generate500
      | Normal input =>
          if negb (truthy input) || negb (is_string input) then Generate400
          else
            match generateTasks data with
            | Some (JArr generatedTasks) =>
                match processGeneratedTasks new_Date readings generatedTasks with
                | Normal processedTasks =>
                    Generate200 processedTasks (length processedTasks)
                | Throw _ => Generate500
                end
            | _ => Generate500
            end
      end
  end.

End AiGenerateRoute.

(** The body of a completion that carries [content] as its first choice. *)
Definition completion_of (content : json) : json :=
  JObj [("choices", JArr [JObj [("message", JObj [("content", content)])]])].


Definition generation_request : json := JObj [("input", JStr "plan the week")].

(** ** The task extraction route
       ([src/app/api/documents/extract-tasks/route.ts]) *)

(** A stored [Document]: the fields that the route reads ([id], [name],
    [content]) and the one it writes ([extractedTasks]); [doc_other] holds
    the remaining properties, which the spread copies. *)
Record Document : Type := mkDocument {
  doc_id : string;
  doc_name : string;
  doc_content : option string;
  doc_extractedTasks : option (list JsObject);
  doc_other : JsObject
}.

Inductive ExtractResponse : Type :=
| Extract400 (error : string)
| Extract404
| Extract500 (error : string)
| Extract200 (extractedTasks : list JsObject) (totalExtracted autoCreated : nat)
    (createdTasks : list JsObject) (sourceDocument_id sourceDocument_name : string).

Inductive ExtractedResponse : Type :=
| Extracted400
| Extracted404
| Extracted200 (documentId documentName : string) (extractedTasks : list JsObject)
    (totalTasks : nat) (hasTasksExtracted : bool).

Module ExtractTasksRoute.

(** [doc => doc.id === documentId] *)
Definition has_id (documentId : value) (doc : Document) : bool :=
  strict_equals (VStr (doc_id doc)) documentId.

(** [POST(request)]: the response and the store afterwards. [body] is what
    [request.json()] comes to and [data] what the request to the model comes
    to, as for [generateTasks]. Destructuring [null] throws; a body that is
    not an object has no [documentId]; [autoCreate] is [false] when the body
    leaves it out. Of the response with status 200 the [timestamp] is left
    out. *)
Definition POST (new_Date : json -> num) (readings : nat -> Reading)
    (documentsStore : list Document) (body data : Completion json)
  : ExtractResponse * list Document :=
  match body with
  | Throw _ | Normal JNull =>
      (Extract500 "Failed to extract tasks from document", documentsStore)
  | Normal body =>
      let documentId := match body with JObj ms => member "documentId" ms | _ => VUndefined end in
      let autoCreate :=
        match body with
        | JObj ms =>
            match member "autoCreate" ms with
            | VUndefined => VBool false
            | v => v
            end
        | _ => VBool false
        end in
      if negb (truthy documentId)
      then (Extract400 "Document ID is required for task extraction", documentsStore)
      else
        match find (has_id documentId) documentsStore with
        | None => (Extract404, documentsStore)
        | Some document =>
            match doc_content document with
            | None | Some EmptyString =>
                (Extract400 "Document has no content to extract tasks from", documentsStore)
            | Some _ =>
                match
                  match generateTasks data with
                  | Some (JArr extractedTasks) =>
                      processExtractedTasks new_Date (doc_name document) readings
                        extractedTasks
                  | _ => Throw TypeError
                  end
                with
                | Throw _ =>
                    (Extract500 "AI failed to extract tasks from document", documentsStore)
                | Normal processedTasks =>
                    let updatedDocument :=
                      mkDocument (doc_id document) (doc_name document)
                        (doc_content document) (Some processedTasks)
                        (doc_other document) in
                    let documentsStore' :=
                      match findIndex (has_id documentId) documentsStore with
                      | Some docIndex => <[docIndex := updatedDocument]> documentsStore
                      | None => documentsStore
                      end in
                    let createdTasks :=
                      if truthy autoCreate && (0 <? length processedTasks)%nat
                      then processedTasks else [] in
                    (Extract200 processedTasks (length processedTasks)
                       (if truthy autoCreate then length createdTasks else 0%nat)
                       (if truthy autoCreate then createdTasks else [])
                       (doc_id document) (doc_name document),
                     documentsStore')
                end
            end
        end
  end.

(** [GET(request)]; [documentId] is [searchParams.get('documentId')]. *)
Definition GET (documentsStore : list Document) (documentId : option string)
  : ExtractedResponse :=
  match documentId with
  | None | Some EmptyString => Extracted400
  | Some documentId =>
      match find (has_id (VStr documentId)) documentsStore with
      | None => Extracted404
      | Some document =>
          let extractedTasks :=
            match doc_extractedTasks document with
            | Some tasks => tasks
            | None => []
            end in
          Extracted200 (doc_id document) (doc_name document) extractedTasks
            (length extractedTasks) (0 <? length extractedTasks)%nat
      end
  end.

End ExtractTasksRoute.

(** The module starts with [documentsStore = []], and the store changes in
    [POST] only. *)
Definition documentsStore_initial : list Document := [].

(** An answer of the extraction route other than status 200. *)
Definition extraction_failed (response : ExtractResponse) : bool :=
  match response with
  | Extract200 _ _ _ _ _ _ => false
  | _ => true
  end.

(** ** Tasks in local storage ([src/lib/task-utils.ts]) *)




Section Storage.

Variable new_Date : json -> num.



End Storage.




(** ** The filter of the task board ([src/components/TaskBoard.tsx]) *)

(** [s.includes(t)]: [t] occurs in [s]. *)
Fixpoint String_includes (s t : string) : bool :=
  String.prefix t s
  || match s with
     | EmptyString => false
     | String _ r => String_includes r t
     end.

(** [array.filter(callback)] for a callback that reads the clock: the call
    on the [i]-th element has the reading [now i]. *)
Fixpoint Array_filter_at {A : Type} (callback : Date -> A -> bool) (now : nat -> Date)
    (i : nat) (l : list A) : list A :=
  match l with
  | [] => []
  | x :: r =>
      if callback (now i) x then x :: Array_filter_at callback now (S i) r
      else Array_filter_at callback now (S i) r
  end.

Section TaskBoardFilter.

(** [String.prototype.toLowerCase] follows the case mapping of the host. *)
Variable toLowerCase : string -> string.

(** The callback of [filteredTasks]; [searchTerm] and [filter] are the state
    of the search box and of the selector, and [now] the reading of
    [new Date()] in the overdue branch. *)
Definition TaskBoard_shows (searchTerm filter : string) (now : Date) (task : Task) : bool :=
  if negb (String.eqb searchTerm EmptyString)
     && (let searchLower := toLowerCase searchTerm in
         negb (String_includes (toLowerCase (title task)) searchLower)
         && negb match description task with
                 | Some d => String_includes (toLowerCase d) searchLower
                 | None => false
                 end
         && negb (String_includes (toLowerCase (category task)) searchLower))
  then false
  else if String.eqb filter "active" then
    negb (Status_eqb (status task) completed) && negb (Status_eqb (status task) cancelled)
  else if String.eqb filter "completed" then Status_eqb (status task) completed
  else if String.eqb filter "overdue" then
    match dueDate task with
    | Some d => Date_lt d now && negb (Status_eqb (status task) completed)
    | None => false
    end
  else true.

Definition TaskBoard_filteredTasks (searchTerm filter : string) (now : nat -> Date)
    (tasks : list Task) : list Task :=
  Array_filter_at (TaskBoard_shows searchTerm filter) now 0%nat tasks.

End TaskBoardFilter.

(** A filter with a list of statuses as its only criterion. *)
Definition only_statuses (l : list Status) : TaskFilter :=
  mkTaskFilter (Some l) None None None None.

(** * Properties *)

(** ** The match of [/o[\s\S]*c/] *)

Lemma star_any_then_None (c : ascii) (s : list ascii) :
  star_any_then c s = None <-> ~ In c s.
Proof.
  induction s as [|x r IH]; simpl.
  - split; [intros _ []|reflexivity].
  - destruct (star_any_then c r) as [m|].
    + split; [discriminate|].
      intros H. exfalso. destruct IH as [_ IH].
      assert (Some m = None) by (apply IH; intros Hin; apply H; now right).
      discriminate.
    + destruct (Ascii.eqb_spec x c) as [->|Hne].
      * split; [discriminate|]. intros H. exfalso. apply H. now left.
      * split; [|reflexivity]. intros _ [Heq|Hin]; [congruence|].
        destruct IH as [IH _]. now apply IH.
Qed.

Lemma star_any_then_last (c : ascii) (body post : list ascii) :
  ~ In c post -> star_any_then c (body ++ c :: post) = Some (body ++ [c]).
Proof.
  intros Hpost. induction body as [|y b IH]; simpl.
  - apply star_any_then_None in Hpost. rewrite Hpost.
    now rewrite Ascii.eqb_refl.
  - now rewrite IH.
Qed.

(** The greedy star stops at the last [c]: the matched text ends with [c] and
    no [c] is left after it. *)
Lemma star_any_then_Some (c : ascii) (s m : list ascii) :
  star_any_then c s = Some m <->
  exists body post, s = body ++ c :: post /\ ~ In c post /\ m = body ++ [c].
Proof.
  split.
  - revert m. induction s as [|x r IH]; intros m; simpl; [discriminate|].
    destruct (star_any_then c r) as [m'|] eqn:E.
    + intros [= <-]. destruct (IH m' eq_refl) as (body & post & -> & Hpost & ->).
      exists (x :: body), post. auto.
    + apply star_any_then_None in E.
      destruct (Ascii.eqb_spec x c) as [->|Hne]; [|discriminate].
      intros [= <-]. exists [], r. auto.
  - intros (body & post & -> & Hpost & ->). now apply star_any_then_last.
Qed.

Lemma regex_exec_first_last (o c : ascii) (pre body post : list ascii) :
  ~ In o pre -> ~ In c post ->
  regex_exec o c (pre ++ o :: body ++ c :: post) = Some (o :: body ++ [c]).
Proof.
  intros Hpre Hpost. induction pre as [|y p IH]; simpl.
  - rewrite Ascii.eqb_refl. now rewrite star_any_then_last.
  - destruct (Ascii.eqb_spec y o) as [->|Hne].
    + exfalso. apply Hpre. now left.
    + apply IH. intros Hin. apply Hpre. now right.
Qed.

(** The match starts at the first [o] and ends at the last [c] of the whole
    text. *)
Lemma regex_exec_Some (o c : ascii) (s m : list ascii) :
  regex_exec o c s = Some m <->
  exists pre body post,
    s = pre ++ o :: body ++ c :: post /\ ~ In o pre /\ ~ In c post /\
    m = o :: body ++ [c].
Proof.
  split.
  - revert m. induction s as [|x r IH]; intros m; simpl; [discriminate|].
    destruct (Ascii.eqb_spec x o) as [->|Hne].
    + destruct (star_any_then c r) as [m'|] eqn:E.
      * apply star_any_then_Some in E. destruct E as (body & post & -> & Hpost & ->).
        intros [= <-]. exists [], body, post. auto.
      * apply star_any_then_None in E. intros H.
        destruct (IH m H) as (pre & body & post & -> & _). exfalso. apply E.
        apply in_or_app. right. right. apply in_or_app. right. now left.
    + intros H. destruct (IH m H) as (pre & body & post & -> & Hpre & Hpost & ->).
      exists (x :: pre), body, post. repeat split; auto.
      intros [Heq|Hin]; [congruence|auto].
  - intros (pre & body & post & -> & Hpre & Hpost & ->).
    now apply regex_exec_first_last.
Qed.

(** There is no match exactly when no [c] follows an [o]. *)
Lemma regex_exec_None (o c : ascii) (s : list ascii) :
  regex_exec o c s = None <->
  forall pre rest, s = pre ++ o :: rest -> ~ In c rest.
Proof.
  induction s as [|x r IH]; simpl.
  - split; [|reflexivity]. intros _ pre rest H. now destruct pre.
  - destruct (Ascii.eqb_spec x o) as [->|Hne].
    + destruct (star_any_then c r) as [m'|] eqn:E.
      * split; [discriminate|]. intros H. exfalso.
        apply star_any_then_Some in E. destruct E as (body & post & -> & _).
        apply (H [] (body ++ c :: post) eq_refl). apply in_or_app. right. now left.
      * apply star_any_then_None in E. rewrite IH. split.
        -- intros H pre rest Heq.
           destruct pre as [|y pre']; simpl in Heq; inversion Heq; subst; [assumption|].
           now apply (H pre').
        -- intros H pre rest ->. now apply (H (o :: pre)).
    + rewrite IH. split.
      * intros H pre rest Heq.
        destruct pre as [|y pre']; simpl in Heq; inversion Heq; subst; [congruence|].
        now apply (H pre').
      * intros H pre rest ->. now apply (H (x :: pre)).
Qed.

Lemma String_match_Some (o c : ascii) (response m : string) :
  String_match o c response = Some m ->
  exists pre body post,
    list_ascii_of_string response = pre ++ o :: body ++ c :: post /\
    ~ In o pre /\ ~ In c post /\
    m = string_of_list_ascii (o :: body ++ [c]).
Proof.
  unfold String_match.
  destruct (regex_exec o c (list_ascii_of_string response)) as [l|] eqn:E; [|discriminate].
  intros [= <-]. apply regex_exec_Some in E.
  destruct E as (pre & body & post & H1 & H2 & H3 & ->). eauto 8.
Qed.

Lemma String_match_first_last (o c : ascii) (response : string)
    (pre body post : list ascii) :
  list_ascii_of_string response = pre ++ o :: body ++ c :: post ->
  ~ In o pre -> ~ In c post ->
  String_match o c response = Some (string_of_list_ascii (o :: body ++ [c])).
Proof.
  intros H Hpre Hpost. unfold String_match. rewrite H.
  now rewrite regex_exec_first_last.
Qed.

(** ** The fuel of the JSON reader is enough

    Every step of the reader consumes text, so any fuel above twice the
    length of the text gives the same result: running out of fuel never
    stands for a syntax error. *)

Lemma skip_ws_length (s : list ascii) : (length (skip_ws s) <= length s)%nat.
Proof.
  induction s as [|x r IH]; simpl; [lia|].
  destruct (is_json_ws x); simpl; lia.
Qed.

Lemma parse_string_chars_length (s acc : list ascii) (k : string) (r : list ascii) :
  parse_string_chars s acc = Some (k, r) -> (length r < length s)%nat.
Proof.
  remember (length s) as n eqn:Hn. revert s acc Hn.
  induction n as [n IH] using lt_wf_ind. intros s acc Hn.
  destruct s as [|x s1]; [discriminate|]. simpl in Hn. cbn [parse_string_chars].
  destruct (Ascii.eqb x "034"); [intros [= _ <-]; lia|].
  destruct (Ascii.eqb x "\").
  - destruct s1 as [|e s2]; [discriminate|]. simpl in Hn.
    assert (Hsimple : forall c, parse_string_chars s2 (c :: acc) = Some (k, r) ->
                                (length r < n)%nat).
    { intros c H. apply (IH (length s2)) in H; [lia|lia|reflexivity]. }
    repeat match goal with
           | |- (if Ascii.eqb e ?c then _ else _) = _ -> _ =>
               destruct (Ascii.eqb e c); [first [apply Hsimple | idtac]|]
           end; try discriminate.
    destruct s2 as [|h1 [|h2 [|h3 [|h4 s3]]]]; try discriminate.
    destruct (hex_of h1), (hex_of h2), (hex_of h3), (hex_of h4); try discriminate.
    intros H. simpl in Hn. apply (IH (length s3)) in H; [lia|lia|reflexivity].
  - destruct (nat_of_ascii x <? 32)%nat; [discriminate|].
    intros H. apply (IH (length s1)) in H; [lia|lia|reflexivity].
Qed.

Lemma parse_digits_length (s : list ascii) (acc n v n' : Z) (r : list ascii) :
  parse_digits s acc n = (v, n', r) -> (length r <= length s)%nat.
Proof.
  revert acc n. induction s as [|x s1 IH]; intros acc n; simpl.
  - intros [= _ _ <-]. simpl. lia.
  - destruct (digit_of x).
    + intros H. apply IH in H. lia.
    + intros [= _ _ <-]. simpl. lia.
Qed.

Lemma parse_sign_length (s : list ascii) (neg : bool) (r : list ascii) :
  parse_sign s = (neg, r) -> (length r <= length s)%nat.
Proof.
  destruct s as [|x s1]; simpl.
  - intros [= _ <-]. simpl. lia.
  - destruct (Ascii.eqb x "-"); intros [= _ <-]; simpl; lia.
Qed.

Lemma parse_int_length (s : list ascii) (v : Z) (r : list ascii) :
  parse_int s = Some (v, r) -> (length r < length s)%nat.
Proof.
  destruct s as [|x s1]; [discriminate|]. cbn [parse_int].
  destruct (Ascii.eqb x "0"); [intros [= _ <-]; simpl; lia|].
  destruct (digit_of x) as [d|] eqn:Hd; [|discriminate].
  cbn [parse_digits]. rewrite Hd.
  destruct (parse_digits s1 (0 * 10 + d) (0 + 1)) as [[v' n'] r'] eqn:E.
  intros [= _ <-]. apply parse_digits_length in E. simpl. lia.
Qed.

Lemma parse_frac_length (iv : Z) (s : list ascii) (v n : Z) (r : list ascii) :
  parse_frac iv s = Some (v, n, r) -> (length r <= length s)%nat.
Proof.
  destruct s as [|x s1]; cbn [parse_frac].
  - intros [= _ _ <-]. simpl. lia.
  - destruct (Ascii.eqb x ".").
    + destruct (parse_digits s1 iv 0) as [[v' n'] r'] eqn:E.
      destruct (n' =? 0); [discriminate|].
      intros [= _ _ <-]. apply parse_digits_length in E. simpl. lia.
    + intros [= _ _ <-]. simpl. lia.
Qed.

Lemma parse_exp_length (s : list ascii) (v : Z) (r : list ascii) :
  parse_exp s = Some (v, r) -> (length r <= length s)%nat.
Proof.
  destruct s as [|x s1]; cbn [parse_exp].
  - intros [= _ <-]. simpl. lia.
  - destruct (Ascii.eqb x "e" || Ascii.eqb x "E").
    + set (sg := match s1 with [] => _ | _ => _ end).
      assert (Hsg : (length (snd sg) <= length s1)%nat).
      { subst sg. destruct s1 as [|y r0]; [simpl; lia|].
        destruct (Ascii.eqb y "-"); [simpl; lia|].
        destruct (Ascii.eqb y "+"); simpl; lia. }
      clearbody sg. destruct sg as [eneg r1]. simpl in Hsg.
      destruct (parse_digits r1 0 0) as [[v' n'] r'] eqn:E.
      destruct (n' =? 0); [discriminate|].
      intros [= _ <-]. apply parse_digits_length in E. simpl. lia.
    + intros [= _ <-]. simpl. lia.
Qed.

Lemma parse_number_length (s : list ascii) (j : json) (r : list ascii) :
  parse_number s = Some (j, r) -> (length r < length s)%nat.
Proof.
  unfold parse_number.
  destruct (parse_sign s) as [neg s1] eqn:E1. apply parse_sign_length in E1.
  destruct (parse_int s1) as [[iv s2]|] eqn:E2; [|discriminate].
  apply parse_int_length in E2.
  destruct (parse_frac iv s2) as [[[mv fn] s3]|] eqn:E3; [|discriminate].
  apply parse_frac_length in E3.
  destruct (parse_exp s3) as [[ev s4]|] eqn:E4; [|discriminate].
  apply parse_exp_length in E4.
  intros [= _ <-]. lia.
Qed.

Lemma expect_length (w s r : list ascii) :
  expect w s = Some r -> (length r <= length s)%nat.
Proof.
  revert s. induction w as [|a w IH]; intros s; simpl.
  - intros [= <-]. lia.
  - destruct s as [|b s1]; [discriminate|].
    destruct (Ascii.eqb a b); [|discriminate].
    intros H. apply IH in H. simpl. lia.
Qed.

Lemma parse_consumes (fuel : nat) :
  (forall s v r, parse_value fuel s = Some (v, r) -> (length r < length s)%nat) /\
  (forall s acc v r, parse_elements fuel s acc = Some (v, r) -> (length r < length s)%nat) /\
  (forall s acc v r, parse_members fuel s acc = Some (v, r) -> (length r < length s)%nat).
Proof.
  induction fuel as [|fuel (IHv & IHe & IHm)]; [repeat split; discriminate|].
  split; [|split].
  - intros s v r. cbn [parse_value].
    pose proof (skip_ws_length s) as Hs.
    destruct (skip_ws s) as [|x r0]; [discriminate|]. simpl in Hs.
    destruct (Ascii.eqb x "{").
    { pose proof (skip_ws_length r0) as Hr0.
      destruct (skip_ws r0) as [|y r']; [discriminate|]. simpl in Hr0.
      destruct (Ascii.eqb y "}"); [intros [= _ <-]; lia|].
      intros H. apply IHm in H. simpl in H. lia. }
    destruct (Ascii.eqb x "[").
    { pose proof (skip_ws_length r0) as Hr0.
      destruct (skip_ws r0) as [|y r']; [discriminate|]. simpl in Hr0.
      destruct (Ascii.eqb y "]"); [intros [= _ <-]; lia|].
      intros H. apply IHe in H. simpl in H. lia. }
    destruct (Ascii.eqb x "034").
    { destruct (parse_string_chars r0 []) as [[str r']|] eqn:E; [|discriminate].
      apply parse_string_chars_length in E. intros [= _ <-]. lia. }
    destruct (Ascii.eqb x "t").
    { destruct (expect _ r0) as [r'|] eqn:E; [|discriminate].
      apply expect_length in E. intros [= _ <-]. lia. }
    destruct (Ascii.eqb x "f").
    { destruct (expect _ r0) as [r'|] eqn:E; [|discriminate].
      apply expect_length in E. intros [= _ <-]. lia. }
    destruct (Ascii.eqb x "n").
    { destruct (expect _ r0) as [r'|] eqn:E; [|discriminate].
      apply expect_length in E. intros [= _ <-]. lia. }
    intros H. apply parse_number_length in H. simpl in H. lia.
  - intros s acc v r. cbn [parse_elements].
    destruct (parse_value fuel s) as [[v1 r1]|] eqn:E; [|discriminate].
    apply IHv in E. pose proof (skip_ws_length r1) as Hr1.
    destruct (skip_ws r1) as [|x r2]; [discriminate|]. simpl in Hr1.
    destruct (Ascii.eqb x ",").
    + intros H. apply IHe in H. lia.
    + destruct (Ascii.eqb x "]"); [|discriminate]. intros [= _ <-]. lia.
  - intros s acc v r. cbn [parse_members].
    pose proof (skip_ws_length s) as Hs.
    destruct (skip_ws s) as [|q r0]; [discriminate|]. simpl in Hs.
    destruct (Ascii.eqb q "034"); [|discriminate].
    destruct (parse_string_chars r0 []) as [[k r1]|] eqn:E; [|discriminate].
    apply parse_string_chars_length in E.
    pose proof (skip_ws_length r1) as Hr1.
    destruct (skip_ws r1) as [|c r2]; [discriminate|]. simpl in Hr1.
    destruct (Ascii.eqb c ":"); [|discriminate].
    destruct (parse_value fuel r2) as [[v3 r3]|] eqn:E3; [|discriminate].
    apply IHv in E3. pose proof (skip_ws_length r3) as Hr3.
    destruct (skip_ws r3) as [|x r4]; [discriminate|]. simpl in Hr3.
    destruct (Ascii.eqb x ",").
    + intros H. apply IHm in H. lia.
    + destruct (Ascii.eqb x "}"); [|discriminate]. intros [= _ <-]. lia.
Qed.

Lemma parse_fuel_enough (f1 : nat) :
  forall f2,
    (forall s, (2 * length s < f1)%nat -> (2 * length s < f2)%nat ->
               parse_value f1 s = parse_value f2 s) /\
    (forall s acc, (2 * length s + 1 < f1)%nat -> (2 * length s + 1 < f2)%nat ->
                   parse_elements f1 s acc = parse_elements f2 s acc) /\
    (forall s acc, (2 * length s + 1 < f1)%nat -> (2 * length s + 1 < f2)%nat ->
                   parse_members f1 s acc = parse_members f2 s acc).
Proof.
  induction f1 as [|f1 IH]; intros f2; [repeat split; intros; lia|].
  destruct f2 as [|f2]; [repeat split; intros; lia|].
  destruct (IH f2) as (IHv & IHe & IHm).
  destruct (parse_consumes f1) as (Cv & _ & _).
  split; [|split].
  - intros s H1 H2. cbn [parse_value].
    pose proof (skip_ws_length s) as Hs.
    destruct (skip_ws s) as [|x r0]; [reflexivity|]. simpl in Hs.
    destruct (Ascii.eqb x "{").
    { pose proof (skip_ws_length r0) as Hr0.
      destruct (skip_ws r0) as [|y r']; [reflexivity|]. simpl in Hr0.
      destruct (Ascii.eqb y "}"); [reflexivity|].
      apply IHm; simpl; lia. }
    destruct (Ascii.eqb x "[").
    { pose proof (skip_ws_length r0) as Hr0.
      destruct (skip_ws r0) as [|y r']; [reflexivity|]. simpl in Hr0.
      destruct (Ascii.eqb y "]"); [reflexivity|].
      apply IHe; simpl; lia. }
    reflexivity.
  - intros s acc H1 H2. cbn [parse_elements].
    rewrite <- (IHv s) by lia.
    destruct (parse_value f1 s) as [[v1 r1]|] eqn:E; [|reflexivity].
    apply Cv in E. pose proof (skip_ws_length r1) as Hr1.
    destruct (skip_ws r1) as [|x r2]; [reflexivity|]. simpl in Hr1.
    destruct (Ascii.eqb x ","); [|reflexivity].
    apply IHe; lia.
  - intros s acc H1 H2. cbn [parse_members].
    pose proof (skip_ws_length s) as Hs.
    destruct (skip_ws s) as [|q r0]; [reflexivity|]. simpl in Hs.
    destruct (Ascii.eqb q "034"); [|reflexivity].
    destruct (parse_string_chars r0 []) as [[k r1]|] eqn:E; [|reflexivity].
    apply parse_string_chars_length in E.
    pose proof (skip_ws_length r1) as Hr1.
    destruct (skip_ws r1) as [|c r2]; [reflexivity|]. simpl in Hr1.
    destruct (Ascii.eqb c ":"); [|reflexivity].
    rewrite <- (IHv r2) by lia.
    destruct (parse_value f1 r2) as [[v3 r3]|] eqn:E3; [|reflexivity].
    apply Cv in E3. pose proof (skip_ws_length r3) as Hr3.
    destruct (skip_ws r3) as [|x r4]; [reflexivity|]. simpl in Hr3.
    destruct (Ascii.eqb x ","); [|reflexivity].
    apply IHm; lia.
Qed.

(** More fuel than [JSON_parse] gives never changes what is read. *)
Lemma JSON_parse_fuel (text : string) (fuel : nat) :
  (2 * length (list_ascii_of_string text) < fuel)%nat ->
  parse_value fuel (list_ascii_of_string text)
  = parse_value (S (2 * length (list_ascii_of_string text))) (list_ascii_of_string text).
Proof.
  intros H. apply parse_fuel_enough; lia.
Qed.

(** ** The shape of what [JSON.parse] returns *)

Lemma parse_members_JObj (fuel : nat) (s : list ascii) (acc : list (string * json))
    (j : json) (r : list ascii) :
  parse_members fuel s acc = Some (j, r) -> exists ms, j = JObj ms.
Proof.
  revert s acc. induction fuel as [|fuel IH]; intros s acc; [discriminate|].
  cbn [parse_members].
  destruct (skip_ws s) as [|q r0]; [discriminate|].
  destruct (Ascii.eqb q "034"); [|discriminate].
  destruct (parse_string_chars r0 []) as [[k r1]|]; [|discriminate].
  destruct (skip_ws r1) as [|c r2]; [discriminate|].
  destruct (Ascii.eqb c ":"); [|discriminate].
  destruct (parse_value fuel r2) as [[v r3]|]; [|discriminate].
  destruct (skip_ws r3) as [|x r4]; [discriminate|].
  destruct (Ascii.eqb x ",").
  - apply IH.
  - destruct (Ascii.eqb x "}"); [|discriminate].
    intros [= <- _]. eauto.
Qed.

Lemma parse_elements_JArr (fuel : nat) (s : list ascii) (acc : list json)
    (j : json) (r : list ascii) :
  parse_elements fuel s acc = Some (j, r) -> exists items, j = JArr items.
Proof.
  revert s acc. induction fuel as [|fuel IH]; intros s acc; [discriminate|].
  cbn [parse_elements].
  destruct (parse_value fuel s) as [[v r1]|]; [|discriminate].
  destruct (skip_ws r1) as [|x r2]; [discriminate|].
  destruct (Ascii.eqb x ",").
  - apply IH.
  - destruct (Ascii.eqb x "]"); [|discriminate].
    intros [= <- _]. eauto.
Qed.

(** A text that starts with an opening brace parses to an object, if at all. *)
Lemma JSON_parse_brace (rest : list ascii) (j : json) :
  JSON_parse (string_of_list_ascii ("{"%char :: rest)) = Normal j ->
  exists ms, j = JObj ms.
Proof.
  unfold JSON_parse. rewrite list_ascii_of_string_of_list_ascii.
  cbn [parse_value skip_ws is_json_ws]. cbn [length].
  change (is_json_ws "{") with false. cbv iota.
  change (Ascii.eqb "{" "{") with true. cbv iota.
  destruct (skip_ws rest) as [|y r'] eqn:E.
  - discriminate.
  - destruct (Ascii.eqb y "}").
    + destruct (skip_ws r'); [|discriminate]. intros [= <-]. eauto.
    + destruct (parse_members _ _ _) as [[v r]|] eqn:Hm; [|discriminate].
      destruct (skip_ws r); [|discriminate]. intros [= <-].
      eapply parse_members_JObj, Hm.
Qed.

(** A text that starts with an opening bracket parses to an array, if at all. *)
Lemma JSON_parse_bracket (rest : list ascii) (j : json) :
  JSON_parse (string_of_list_ascii ("["%char :: rest)) = Normal j ->
  exists items, j = JArr items.
Proof.
  unfold JSON_parse. rewrite list_ascii_of_string_of_list_ascii.
  cbn [parse_value skip_ws is_json_ws]. cbn [length].
  change (is_json_ws "[") with false. cbv iota.
  change (Ascii.eqb "[" "{") with false. cbv iota.
  change (Ascii.eqb "[" "[") with true. cbv iota.
  destruct (skip_ws rest) as [|y r'] eqn:E.
  - discriminate.
  - destruct (Ascii.eqb y "]").
    + destruct (skip_ws r'); [|discriminate]. intros [= <-]. eauto.
    + destruct (parse_elements _ _ _) as [[v r]|] eqn:Hm; [|discriminate].
      destruct (skip_ws r); [|discriminate]. intros [= <-].
      eapply parse_elements_JArr, Hm.
Qed.

(** ** The normalizer *)

Lemma try_or_else_Normal {A : Type} (body : Completion (option A)) (fallback : A) :
  exists a, try_or_else body fallback = Normal a.
Proof. destruct body as [[a|]|e]; simpl; eauto. Qed.

Lemma parseAIResponse_unparseable (response : string) :
  unparseable "{" "}" response = true ->
  parseAIResponse response = Normal (chat_fallback response).
Proof.
  unfold unparseable, parseAIResponse.
  destruct (String_match "{" "}" response) as [m|]; [|reflexivity].
  destruct (JSON_parse m); [discriminate|reflexivity].
Qed.

Lemma parseDocumentAnalysis_unparseable (response : string) :
  unparseable "{" "}" response = true ->
  parseDocumentAnalysis response = Normal (analysis_fallback response).
Proof.
  unfold unparseable, parseDocumentAnalysis.
  destruct (String_match "{" "}" response) as [m|]; [|reflexivity].
  destruct (JSON_parse m); [discriminate|reflexivity].
Qed.

Lemma parseTasksFromResponse_unparseable (response : string) :
  unparseable "[" "]" response = true ->
  parseTasksFromResponse response = Normal (JArr []).
Proof.
  unfold unparseable, parseTasksFromResponse.
  destruct (String_match "[" "]" response) as [m|]; [|reflexivity].
  destruct (JSON_parse m); [discriminate|reflexivity].
Qed.

Lemma parseDocumentAnalysis_parsed (response m : string) (j : json) :
  String_match "{" "}" response = Some m ->
  JSON_parse m = Normal j ->
  parseDocumentAnalysis response = Normal j.
Proof. unfold parseDocumentAnalysis. intros -> ->. reflexivity. Qed.

Lemma parseTasksFromResponse_parsed (response m : string) (j : json) :
  String_match "[" "]" response = Some m ->
  JSON_parse m = Normal j ->
  parseTasksFromResponse response = Normal j.
Proof. unfold parseTasksFromResponse. intros -> ->. reflexivity. Qed.

(** The task list is always an array. *)
Lemma parseTasksFromResponse_array (response : string) :
  exists items, parseTasksFromResponse response = Normal (JArr items).
Proof.
  unfold parseTasksFromResponse.
  destruct (String_match "[" "]" response) as [m|] eqn:E; [|simpl; eauto].
  destruct (JSON_parse m) as [j|e] eqn:P; [|simpl; eauto].
  apply String_match_Some in E. destruct E as (pre & body & post & _ & _ & _ & ->).
  apply JSON_parse_bracket in P. destruct P as [items ->]. simpl. eauto.
Qed.

(** The document analysis is always an object. *)
Lemma parseDocumentAnalysis_object (response : string) :
  exists ms, parseDocumentAnalysis response = Normal (JObj ms).
Proof.
  unfold parseDocumentAnalysis.
  destruct (String_match "{" "}" response) as [m|] eqn:E; [|simpl; unfold analysis_fallback; eauto].
  destruct (JSON_parse m) as [j|e] eqn:P; [|simpl; unfold analysis_fallback; eauto].
  apply String_match_Some in E. destruct E as (pre & body & post & _ & _ & _ & ->).
  apply JSON_parse_brace in P. destruct P as [ms ->]. simpl. eauto.
Qed.

(** ** Trimming *)

Section TrimFacts.

Variable sp1 : ascii -> bool.
Variable sp2 : ascii -> ascii -> bool.
Variable sp3 : ascii -> ascii -> ascii -> bool.

Lemma trim_by_split_bounded (n : nat) (s : list ascii) :
  (length s <= n)%nat ->
  exists pre, s = pre ++ trim_by sp1 sp2 sp3 s /\ spaces_by sp1 sp2 sp3 pre.
Proof.
  revert s. induction n as [|n IH]; intros s Hn.
  { destruct s; [|simpl in Hn; lia]. exists []. split; [reflexivity|constructor]. }
  destruct s as [|a r1]; [exists []; split; [reflexivity|constructor]|].
  simpl in Hn. cbn [trim_by].
  destruct (sp1 a) eqn:E1.
  { destruct (IH r1 ltac:(lia)) as (pre & Hpre & Hs).
    exists ([a] ++ pre). split; [simpl; now f_equal|].
    constructor; [now constructor|exact Hs]. }
  destruct r1 as [|b r2]; [exists []; split; [reflexivity|constructor]|].
  simpl in Hn. destruct (sp2 a b) eqn:E2.
  { destruct (IH r2 ltac:(lia)) as (pre & Hpre & Hs).
    exists ([a; b] ++ pre). split; [simpl; now do 2 f_equal|].
    constructor; [now constructor|exact Hs]. }
  destruct r2 as [|c r3]; [exists []; split; [reflexivity|constructor]|].
  simpl in Hn. destruct (sp3 a b c) eqn:E3.
  { destruct (IH r3 ltac:(lia)) as (pre & Hpre & Hs).
    exists ([a; b; c] ++ pre). split; [simpl; now do 3 f_equal|].
    constructor; [now constructor|exact Hs]. }
  exists []. split; [reflexivity|constructor].
Qed.

Lemma trim_by_split (s : list ascii) :
  exists pre, s = pre ++ trim_by sp1 sp2 sp3 s /\ spaces_by sp1 sp2 sp3 pre.
Proof. now apply (trim_by_split_bounded (length s)). Qed.

Lemma trim_by_no_space_bounded (n : nat) (s w l : list ascii) :
  (length s <= n)%nat ->
  space_char_by sp1 sp2 sp3 w -> trim_by sp1 sp2 sp3 s <> w ++ l.
Proof.
  intros Hn Hw. revert s Hn. induction n as [|n IH]; intros s Hn.
  { destruct s; [|simpl in Hn; lia]. simpl. destruct Hw; discriminate. }
  destruct s as [|a r1]; [simpl; destruct Hw; discriminate|].
  simpl in Hn. cbn [trim_by].
  destruct (sp1 a) eqn:E1; [apply IH; lia|].
  destruct r1 as [|b r2].
  { destruct Hw as [a' H|a' b' H|a' b' c' H]; simpl; intros [= <-]; congruence. }
  simpl in Hn. destruct (sp2 a b) eqn:E2; [apply IH; lia|].
  destruct r2 as [|c r3].
  { destruct Hw as [a' H|a' b' H|a' b' c' H]; simpl; intros [= <- <-]; congruence. }
  simpl in Hn. destruct (sp3 a b c) eqn:E3; [apply IH; lia|].
  destruct Hw as [a' H|a' b' H|a' b' c' H]; simpl.
  - intros [= <-]. congruence.
  - intros [= <- <-]. congruence.
  - intros [= <- <- <-]. congruence.
Qed.

Lemma trim_by_no_space (s w l : list ascii) :
  space_char_by sp1 sp2 sp3 w -> trim_by sp1 sp2 sp3 s <> w ++ l.
Proof. now apply (trim_by_no_space_bounded (length s)). Qed.

Lemma spaces_by_snoc (l w : list ascii) :
  spaces_by sp1 sp2 sp3 l -> space_char_by sp1 sp2 sp3 w ->
  spaces_by sp1 sp2 sp3 (l ++ w).
Proof.
  intros Hl Hw. induction Hl as [|w' l' Hw' Hl' IH].
  - simpl. rewrite <- (app_nil_r w). constructor; [exact Hw|constructor].
  - rewrite <- app_assoc. now constructor.
Qed.

End TrimFacts.

Lemma space_char_rev (w : list ascii) :
  space_char_by is_js_space (fun b a => is_js_space2 a b)
    (fun c b a => is_js_space3 a b c) w <->
  space_char (rev w).
Proof.
  split.
  - intros [a H|a b H|a b c H]; simpl; now constructor.
  - intros H. rewrite <- (rev_involutive w).
    destruct H as [a H|a b H|a b c H]; simpl; now constructor.
Qed.

Lemma white_space_rev (l : list ascii) :
  spaces_by is_js_space (fun b a => is_js_space2 a b)
    (fun c b a => is_js_space3 a b c) l ->
  white_space (rev l).
Proof.
  induction 1 as [|w l Hw Hl IH]; [constructor|].
  rewrite rev_app_distr. apply spaces_by_snoc; [exact IH|].
  now apply space_char_rev.
Qed.

(** What [trim] does to a text: it takes white space off both ends, and
    there is none left at either end. *)
Lemma trim_spec (s : list ascii) :
  let t := trim_end (trim_start s) in
  (exists pre post, s = pre ++ t ++ post /\ white_space pre /\ white_space post) /\
  (forall w l, space_char w -> t <> w ++ l) /\
  (forall w l, space_char w -> t <> l ++ w).
Proof.
  cbv zeta. unfold trim_end, trim_start.
  set (sp2' := fun b a => is_js_space2 a b).
  set (sp3' := fun c b a => is_js_space3 a b c).
  destruct (trim_by_split is_js_space is_js_space2 is_js_space3 s) as (pre & Hpre & Hws).
  set (t1 := trim_by is_js_space is_js_space2 is_js_space3 s) in *.
  destruct (trim_by_split is_js_space sp2' sp3' (rev t1)) as (post' & Hpost & Hws').
  set (t2 := trim_by is_js_space sp2' sp3' (rev t1)) in *.
  assert (Ht1 : t1 = rev t2 ++ rev post').
  { rewrite <- rev_app_distr, <- Hpost. now rewrite rev_involutive. }
  split; [|split].
  - exists pre, (rev post'). split; [now rewrite <- Ht1|].
    split; [exact Hws|now apply white_space_rev].
  - intros w l Hw E.
    apply (trim_by_no_space is_js_space is_js_space2 is_js_space3 s w (l ++ rev post') Hw).
    fold t1. rewrite Ht1, E. now rewrite app_assoc.
  - intros w l Hw E.
    apply (trim_by_no_space is_js_space sp2' sp3' (rev t1) (rev w) (rev l)).
    + apply space_char_rev. now rewrite rev_involutive.
    + fold t2. rewrite <- rev_app_distr, <- E. now rewrite rev_involutive.
Qed.

(** C7. None of the three parsers raises: each returns a value for every
    response, the task parser an array and the analysis parser an object.
    When the response is malformed (nothing matches the pattern, or
    [JSON.parse] rejects the match) the value is the fallback: for a chat
    reply the trimmed text as [response] with empty [suggestions] and
    [generatedTasks]; for a task array the empty list; for a document
    analysis the raw text as [summary] with empty [insights],
    [extractedTasks], [keyTopics] and [actionItems]. The trimmed text is the
    response without the white space and line terminators at its two ends:
    what was taken off is white space only, and the text that remains
    neither starts nor ends with a white space character. *)
Theorem normalizer_never_raises (response : string) :
  (exists r, parseAIResponse response = Normal r) /\
  (exists items, parseTasksFromResponse response = Normal (JArr items)) /\
  (exists ms, parseDocumentAnalysis response = Normal (JObj ms)) /\
  (unparseable "{" "}" response = true ->
     exists r,
       parseAIResponse response = Normal r /\
       r !! "response" = Some (VStr (String_trim response)) /\
       r !! "suggestions" = Some (VJson (JArr [])) /\
       r !! "generatedTasks" = Some (VJson (JArr []))) /\
  (unparseable "[" "]" response = true ->
     parseTasksFromResponse response = Normal (JArr [])) /\
  (unparseable "{" "}" response = true ->
     parseDocumentAnalysis response
     = Normal (JObj [ ("summary", JStr response);
                      ("insights", JArr []);
                      ("extractedTasks", JArr []);
                      ("keyTopics", JArr []);
                      ("actionItems", JArr []) ])) /\
  (exists pre post,
     list_ascii_of_string response
     = pre ++ list_ascii_of_string (String_trim response) ++ post /\
     white_space pre /\ white_space post) /\
  (forall w l, space_char w ->
     list_ascii_of_string (String_trim response) <> w ++ l /\
     list_ascii_of_string (String_trim response) <> l ++ w).
Proof.
  split; [apply try_or_else_Normal|].
  split; [apply parseTasksFromResponse_array|].
  split; [apply parseDocumentAnalysis_object|].
  split; [|split; [|split; [|split]]].
  - intros H. exists (chat_fallback response).
    split; [now apply parseAIResponse_unparseable|].
    repeat split.
  - apply parseTasksFromResponse_unparseable.
  - apply parseDocumentAnalysis_unparseable.
  - unfold String_trim. rewrite list_ascii_of_string_of_list_ascii.
    apply trim_spec.
  - intros w l Hw. unfold String_trim. rewrite list_ascii_of_string_of_list_ascii.
    destruct (trim_spec (list_ascii_of_string response)) as (_ & Hstart & Hend).
    split; [now apply Hstart|now apply Hend].
Qed.

(** A reply without JSON that has a no-break space in front of it and
    spaces and a line feed after it. *)
Lemma normalizer_never_raises_witness :
  unparseable "{" "}" padded_reply = true /\
  exists r,
    parseAIResponse padded_reply = Normal r /\
    r !! "response" = Some (VStr "All done.") /\
    r !! "suggestions" = Some (VJson (JArr [])) /\
    r !! "generatedTasks" = Some (VJson (JArr [])).
Proof.
  split; [reflexivity|].
  destruct (normalizer_never_raises padded_reply) as (_ & _ & _ & H & _).
  destruct (H eq_refl) as (r & Hr & Hresponse & Hsuggestions & Htasks).
  exists r. split; [exact Hr|]. split; [|split; assumption].
  rewrite Hresponse. reflexivity.
Defined.

(** What the chat parser makes of a span that [JSON.parse] accepts: the
    members [response], [suggestions], [generatedTasks] and [actions] of the
    parsed object, the raw text standing in for a [response] that is absent
    or falsy. *)
Lemma parseAIResponse_parsed (response m : string) (parsed : json) :
  String_match "{" "}" response = Some m ->
  JSON_parse m = Normal parsed ->
  exists ms,
    parsed = JObj ms /\
    parseAIResponse response
    = Normal (object_literal
                [ Field "response" (js_or (member "response" ms) (VStr response));
                  Field "suggestions" (member "suggestions" ms);
                  Field "generatedTasks" (member "generatedTasks" ms);
                  Field "actions" (member "actions" ms) ]).
Proof.
  intros Hm Hj. unfold parseAIResponse. rewrite Hm.
  apply String_match_Some in Hm. destruct Hm as (pre & body & post & _ & _ & _ & ->).
  rewrite Hj. apply JSON_parse_brace in Hj. destruct Hj as [ms ->].
  exists ms. split; reflexivity.
Qed.

(** C5, as the code has it. The one span that is parsed runs from the first
    opening bracket of the response through the last closing bracket of the
    whole response (not the close that corresponds to the opening one). When
    [JSON.parse] accepts that span, the analysis and task parsers return what
    it makes of the span and the chat parser returns the members of the
    parsed object; when [JSON.parse] rejects it every parser returns its
    fallback: no other span is tried. *)
Theorem normalizer_parses_first_to_last_bracket (o c : ascii) (response m : string) :
  String_match o c response = Some m ->
  (exists pre body post,
     list_ascii_of_string response = pre ++ o :: body ++ c :: post /\
     ~ In o pre /\ ~ In c post /\
     m = string_of_list_ascii (o :: body ++ [c])) /\
  (forall pre body post,
     list_ascii_of_string response = pre ++ o :: body ++ c :: post ->
     ~ In o pre -> ~ In c post ->
     m = string_of_list_ascii (o :: body ++ [c])) /\
  (o = "{"%char -> c = "}"%char ->
     match JSON_parse m with
     | Normal parsed =>
         parseDocumentAnalysis response = Normal parsed /\
         exists ms,
           parsed = JObj ms /\
           parseAIResponse response
           = Normal (object_literal
                       [ Field "response" (js_or (member "response" ms) (VStr response));
                         Field "suggestions" (member "suggestions" ms);
                         Field "generatedTasks" (member "generatedTasks" ms);
                         Field "actions" (member "actions" ms) ])
     | Throw _ =>
         parseAIResponse response = Normal (chat_fallback response) /\
         parseDocumentAnalysis response = Normal (analysis_fallback response)
     end) /\
  (o = "["%char -> c = "]"%char ->
     match JSON_parse m with
     | Normal parsed => parseTasksFromResponse response = Normal parsed
     | Throw _ => parseTasksFromResponse response = Normal (JArr [])
     end).
Proof.
  intros Hm. split; [now apply String_match_Some|]. split; [|split].
  - intros pre body post H Hpre Hpost.
    pose proof (String_match_first_last o c response pre body post H Hpre Hpost) as H'.
    congruence.
  - intros -> ->. destruct (JSON_parse m) as [parsed|e] eqn:P.
    + split; [now apply (parseDocumentAnalysis_parsed response m)|].
      now apply (parseAIResponse_parsed response m).
    + split.
      * apply parseAIResponse_unparseable. unfold unparseable. now rewrite Hm, P.
      * apply parseDocumentAnalysis_unparseable. unfold unparseable. now rewrite Hm, P.
  - intros -> ->. destruct (JSON_parse m) as [parsed|e] eqn:P.
    + now apply (parseTasksFromResponse_parsed response m).
    + apply parseTasksFromResponse_unparseable. unfold unparseable. now rewrite Hm, P.
Qed.

(** Two objects in one reply: the span is the whole text, which is not JSON.
    One object between a preamble and trailing text: the span is the object,
    and the chat parser answers its members, here with the raw text as the
    response. *)
Lemma normalizer_parses_first_to_last_bracket_witness :
  String_match "{" "}" two_objects_reply = Some two_objects_reply /\
  parseAIResponse two_objects_reply = Normal (chat_fallback two_objects_reply) /\
  parseDocumentAnalysis two_objects_reply = Normal (analysis_fallback two_objects_reply) /\
  String_match "{" "}" analysis_reply
  = Some (json_text "{'summary':'ok','insights':['a','b']}") /\
  exists r,
    parseAIResponse analysis_reply = Normal r /\
    r !! "response" = Some (VStr analysis_reply) /\
    r !! "suggestions" = Some VUndefined.
Proof.
  split; [reflexivity|].
  destruct (normalizer_parses_first_to_last_bracket "{" "}" two_objects_reply
              two_objects_reply eq_refl) as (_ & _ & H & _).
  destruct (H eq_refl eq_refl) as [Hchat Hanalysis].
  split; [exact Hchat|]. split; [exact Hanalysis|].
  split; [reflexivity|].
  destruct (normalizer_parses_first_to_last_bracket "{" "}" analysis_reply
              (json_text "{'summary':'ok','insights':['a','b']}") eq_refl)
    as (_ & _ & H' & _).
  destruct (H' eq_refl eq_refl) as (_ & ms & Hms & Hparsed).
  injection Hms as <-.
  eexists. split; [exact Hparsed|]. split; reflexivity.
Defined.

(** C5, as stated, fails: in a response with two bracketed regions the span
    from the first opening bracket through its corresponding close is valid
    JSON, yet the span the parsers take is the whole text up to the last
    closing bracket, which [JSON.parse] rejects, and the fallback is
    returned. *)
Lemma normalizer_span_is_not_first_region :
  spec_first_span "{" "}" two_objects_reply = Some (json_text "{'response':'a'}") /\
  JSON_parse (json_text "{'response':'a'}") = Normal (JObj [("response", JStr "a")]) /\
  String_match "{" "}" two_objects_reply = Some two_objects_reply /\
  String_match "{" "}" two_objects_reply <> spec_first_span "{" "}" two_objects_reply /\
  parseAIResponse two_objects_reply = Normal (chat_fallback two_objects_reply) /\
  spec_first_span "[" "]" two_arrays_reply = Some (json_text "[{'title':'a'}]") /\
  JSON_parse (json_text "[{'title':'a'}]") = Normal (JArr [JObj [("title", JStr "a")]]) /\
  parseTasksFromResponse two_arrays_reply = Normal (JArr []).
Proof. repeat split. discriminate. Qed.

(** ** Document analysis: the parsed object is returned as it is *)

(** C4, as the code has it. When the response holds a span that
    [JSON.parse] accepts, the analysis parser returns the parsed object as it
    is, without merging defaults into it: a field the JSON does not supply is
    absent from the result. *)
Theorem parseDocumentAnalysis_returns_parsed (response m : string) (j : json) :
  String_match "{" "}" response = Some m ->
  JSON_parse m = Normal j ->
  parseDocumentAnalysis response = Normal j /\
  exists ms,
    j = JObj ms /\
    forall k, members_get k ms = None -> get_prop j k = Normal VUndefined.
Proof.
  intros Hm Hj. split; [now apply (parseDocumentAnalysis_parsed response m)|].
  apply String_match_Some in Hm. destruct Hm as (pre & body & post & _ & _ & _ & ->).
  apply JSON_parse_brace in Hj. destruct Hj as [ms ->].
  exists ms. split; [reflexivity|]. intros k Hk. simpl. unfold member. now rewrite Hk.
Qed.

Lemma parseDocumentAnalysis_returns_parsed_witness :
  parseDocumentAnalysis analysis_reply
  = Normal (JObj [("summary", JStr "ok"); ("insights", JArr [JStr "a"; JStr "b"])]).
Proof.
  apply (parseDocumentAnalysis_returns_parsed analysis_reply
           (json_text "{'summary':'ok','insights':['a','b']}")).
  - reflexivity.
  - reflexivity.
Defined.

(** C4, as stated, fails on the specification's own sample: the result has
    the two parsed fields only, and [extractedTasks], [keyTopics] and
    [actionItems] are undefined rather than empty lists. *)
Lemma parseDocumentAnalysis_merges_no_defaults :
  parseDocumentAnalysis analysis_reply
  = Normal (JObj [("summary", JStr "ok"); ("insights", JArr [JStr "a"; JStr "b"])]) /\
  parseDocumentAnalysis analysis_reply <> Normal analysis_with_defaults /\
  (forall j, parseDocumentAnalysis analysis_reply = Normal j ->
     get_prop j "extractedTasks" = Normal VUndefined /\
     get_prop j "keyTopics" = Normal VUndefined /\
     get_prop j "actionItems" = Normal VUndefined).
Proof.
  split; [reflexivity|]. split; [discriminate|].
  intros j [= <-]. repeat split.
Qed.

(** ** [Array.prototype.sort] as modelled: permutation, order, stability *)

(** ** [Array.prototype.sort] as modelled: permutation, order, stability *)

Section SortFacts.

Context {A : Type}.
Variable comparefn : A -> A -> num.

Lemma sort_insert_Permutation (x : A) (l : list A) :
  Permutation (x :: l) (sort_insert comparefn x l).
Proof.
  induction l as [|y r IH]; simpl; [reflexivity|].
  destruct (comes_after (comparefn x y)); [|reflexivity].
  etransitivity; [apply perm_swap|]. now constructor.
Qed.

Lemma Array_sort_Permutation (l : list A) :
  Permutation l (Array_sort comparefn l).
Proof.
  induction l as [|x r IH]; simpl; [reflexivity|].
  etransitivity; [|apply sort_insert_Permutation]. now constructor.
Qed.

(** The comparator orders by a numeric key, larger keys first. *)
Variable key : A -> Z.
Hypothesis comparefn_key :
  forall x y, comes_after (comparefn x y) = (key x <? key y).

Lemma sort_insert_Forall (P : A -> Prop) (x : A) (l : list A) :
  P x -> Forall P l -> Forall P (sort_insert comparefn x l).
Proof.
  intros Hx Hl. induction Hl as [|y r Hy Hr IH]; simpl.
  - now constructor.
  - destruct (comes_after (comparefn x y)); repeat constructor; auto.
Qed.

Lemma sort_insert_sorted (x : A) (l : list A) :
  StronglySorted (key_desc key) l -> StronglySorted (key_desc key) (sort_insert comparefn x l).
Proof using comparefn_key.
  induction 1 as [|y r Hr IH Hy]; simpl.
  - repeat constructor.
  - rewrite comparefn_key. destruct (Z.ltb_spec (key x) (key y)) as [Hlt|Hge].
    + constructor; [assumption|].
      apply sort_insert_Forall; [unfold key_desc; lia|assumption].
    + constructor; [now constructor|].
      constructor; [assumption|].
      eapply List.Forall_impl; [|exact Hy]. unfold key_desc. intros z Hz. lia.
Qed.

Lemma Array_sort_sorted (l : list A) :
  StronglySorted (key_desc key) (Array_sort comparefn l).
Proof using comparefn_key.
  induction l as [|x r IH]; simpl; [constructor|].
  now apply sort_insert_sorted.
Qed.

(** Elements with the key [k] keep their relative order. *)
Lemma sort_insert_stable (k : Z) (x : A) (l : list A) :
  List.filter (fun a => key a =? k) (sort_insert comparefn x l) =
  List.filter (fun a => key a =? k) (x :: l).
Proof using comparefn_key.
  induction l as [|y r IH]; [reflexivity|].
  cbn [sort_insert]. rewrite comparefn_key.
  destruct (Z.ltb_spec (key x) (key y)) as [Hlt|Hge]; [|reflexivity].
  cbn [List.filter] in *. rewrite IH.
  destruct (Z.eqb_spec (key x) k) as [Hx|Hx];
    destruct (Z.eqb_spec (key y) k) as [Hy|Hy]; try reflexivity.
  lia.
Qed.

Lemma Array_sort_stable (k : Z) (l : list A) :
  List.filter (fun a => key a =? k) (Array_sort comparefn l) =
  List.filter (fun a => key a =? k) l.
Proof using comparefn_key.
  induction l as [|x r IH]; [reflexivity|].
  cbn [Array_sort]. rewrite sort_insert_stable.
  cbn [List.filter]. now rewrite IH.
Qed.

End SortFacts.

Lemma priorityOrder_inj (p q : Priority) :
  priorityOrder p = priorityOrder q -> p = q.
Proof. destruct p, q; simpl; intros H; try reflexivity; discriminate. Qed.



(** ** The overdue counter and the overdue list *)

Lemma stats_step_overdue (now : Date) (tasks : list Task) (s : TaskStats) :
  overdue (fold_left (stats_step now) tasks s) =
  overdue s + Z.of_nat (length (List.filter (stats_overdue now) tasks)).
Proof.
  revert s. induction tasks as [|t r IH]; intros s; simpl.
  - lia.
  - rewrite IH. simpl. destruct (stats_overdue now t); simpl; lia.
Qed.

(** The counter is the number of tasks that pass the counter's own test. *)
Lemma calculateTaskStats_overdue (now : Date) (tasks : list Task) :
  overdue (calculateTaskStats now tasks) =
  Z.of_nat (length (List.filter (stats_overdue now) tasks)).
Proof. unfold calculateTaskStats. rewrite stats_step_overdue. simpl. lia. Qed.

(** The counter exceeds the length of the overdue list by the number of
    cancelled tasks whose due date has passed. *)
Lemma calculateTaskStats_overdue_excess (now : Date) (tasks : list Task) :
  overdue (calculateTaskStats now tasks) =
  Z.of_nat (length (getOverdueTasks now tasks))
  + Z.of_nat (length (List.filter (cancelled_and_due now) tasks)).
Proof.
  rewrite calculateTaskStats_overdue. unfold getOverdueTasks.
  induction tasks as [|t r IH]; [reflexivity|].
  cbn [List.filter]. unfold stats_overdue at 1, cancelled_and_due at 1.
  destruct (dueDate t) as [d|]; [|exact IH].
  destruct (Date_lt d now); [|exact IH].
  destruct (status t); simpl in *; lia.
Qed.

(** C1. On a collection holding one cancelled task whose due date has passed,
    the overdue counter of the statistics is 1 while the overdue list is
    empty: the counter's test leaves out the check that the status is not
    cancelled, which the list's test has. *)
Theorem calculateTaskStats_counts_cancelled_as_overdue :
  let now := mkDate (Num 2000) in
  overdue (calculateTaskStats now [cancelled_past_due]) = 1 /\
  getOverdueTasks now [cancelled_past_due] = [] /\
  overdue (calculateTaskStats now [cancelled_past_due])
  <> Z.of_nat (length (getOverdueTasks now [cancelled_past_due])).
Proof. cbv zeta. repeat split. discriminate. Qed.

(** The two agree on every collection without such a task. *)
Lemma calculateTaskStats_overdue_agrees (now : Date) (tasks : list Task) :
  List.filter (cancelled_and_due now) tasks = [] ->
  overdue (calculateTaskStats now tasks) = Z.of_nat (length (getOverdueTasks now tasks)).
Proof. intros H. rewrite calculateTaskStats_overdue_excess, H. simpl. lia. Qed.

(** ** Tasks due today *)

Lemma setHours0_start_of_day (LocalTZA : Z -> bool -> Z) (t : Z) :
  setHours0 LocalTZA (mkDate (Num t)) = mkDate (TimeClip (start_of_day LocalTZA t)).
Proof.
  unfold setHours0, start_of_day, day_start, local_day. simpl. do 3 f_equal.
  unfold msPerDay. Z.div_mod_to_equations. lia.
Qed.

Lemma TimeClip_in_range (t : Z) :
  Z.abs t <= 8640000000000000 -> TimeClip t = Num t.
Proof. intros H. unfold TimeClip. now apply Z.leb_le in H as ->. Qed.

(** On a day at whose start the local clocks show 00:00, in a time zone in
    which the start of the day never lies after the instant and never goes
    back as time goes on, the tasks due today are the tasks due from the
    start of the local day to the start of the next one. *)
Lemma getTasksDueToday_window (LocalTZA : Z -> bool -> Z) (now : Z) (tasks : list Task) :
  let n := local_day LocalTZA now in
  let today := day_start LocalTZA n in
  let tomorrow := day_start LocalTZA (n + 1) in
  (forall t t', t <= t' -> start_of_day LocalTZA t <= start_of_day LocalTZA t') ->
  (forall t, start_of_day LocalTZA t <= t) ->
  LocalTime LocalTZA today = n * msPerDay ->
  local_day LocalTZA tomorrow = n + 1 ->
  Z.abs today <= 8640000000000000 ->
  Z.abs tomorrow <= 8640000000000000 ->
  getTasksDueToday LocalTZA (mkDate (Num now)) tasks
  = List.filter (due_within today tomorrow) tasks.
Proof.
  cbv zeta. intros Hmono Hle Hmidnight Htomorrow Hr1 Hr2.
  set (n := local_day LocalTZA now) in *.
  set (today := day_start LocalTZA n) in *.
  set (tomorrow := day_start LocalTZA (n + 1)) in *.
  assert (Stoday : start_of_day LocalTZA today = today).
  { unfold start_of_day, local_day. rewrite Hmidnight.
    rewrite Z.div_mul by (unfold msPerDay; lia). reflexivity. }
  assert (Stomorrow : start_of_day LocalTZA tomorrow = tomorrow).
  { unfold start_of_day. now rewrite Htomorrow. }
  assert (Htoday : setHours0 LocalTZA (mkDate (Num now)) = mkDate (Num today)).
  { rewrite setHours0_start_of_day. unfold start_of_day. fold n today.
    now rewrite (TimeClip_in_range today Hr1). }
  unfold getTasksDueToday. cbv zeta. rewrite Htoday.
  assert (Hnext : setDatePlus LocalTZA 1 (mkDate (Num today)) = mkDate (Num tomorrow)).
  { unfold setDatePlus. simpl. rewrite Hmidnight.
    replace (n * msPerDay + 1 * msPerDay) with ((n + 1) * msPerDay) by lia.
    fold (day_start LocalTZA (n + 1)). fold tomorrow.
    now rewrite (TimeClip_in_range tomorrow Hr2). }
  rewrite Hnext. apply List.filter_ext. intros task. unfold due_within.
  destruct (dueDate task) as [[[d|]]|]; try reflexivity.
  rewrite setHours0_start_of_day. unfold Date_ge, Date_lt. simpl.
  pose proof (Hle d) as Hd.
  assert (H1 : today <= d <-> today <= start_of_day LocalTZA d).
  { split; intros H; [|lia]. rewrite <- Stoday. now apply Hmono. }
  assert (H2 : d < tomorrow <-> start_of_day LocalTZA d < tomorrow).
  { split; intros H; [lia|].
    destruct (Z.lt_ge_cases d tomorrow) as [|Hge]; [assumption|].
    apply Hmono in Hge. rewrite Stomorrow in Hge. lia. }
  unfold TimeClip.
  destruct (Z.leb_spec (Z.abs (start_of_day LocalTZA d)) 8640000000000000) as [Hin|Hout];
    simpl.
  - apply Bool.eq_iff_eq_true. rewrite !andb_true_iff, !Z.leb_le, !Z.ltb_lt. tauto.
  - symmetry. apply andb_false_iff.
    destruct (Z.leb_spec today d) as [Ha|]; [|now left]. right.
    apply Z.ltb_ge. destruct (Z.lt_ge_cases d tomorrow) as [Hb|]; [|assumption].
    apply H1 in Ha. apply H2 in Hb. lia.
Qed.

(** C9, at an input where it fails. In America/Santiago daylight saving
    time starts at midnight: on 2024-09-08 the clocks go from 24:00 to 01:00.
    Read at noon of that day, [today] is the start of the day, at which the
    clocks show 01:00, and [tomorrow], made by [setDate] with the same time
    of day, is 01:00 of 2024-09-09, not its start. A task due tomorrow at
    00:00:00 has its due date in the next local day, at its very start, and
    is returned as due today. *)
Theorem getTasksDueToday_returns_task_due_tomorrow :
  let now := 1725807600000 in
  let due := 1725850800000 in
  let t := sample_task "task_3" todo high (Some (mkDate (Num due))) in
  local_day America_Santiago due = local_day America_Santiago now + 1 /\
  due = day_start America_Santiago (local_day America_Santiago now + 1) /\
  LocalTime America_Santiago due = (local_day America_Santiago now + 1) * msPerDay /\
  getTasksDueToday America_Santiago (mkDate (Num now)) [t] = [t].
Proof. cbv zeta. repeat split. Qed.

Lemma America_New_York_start_of_day (t : Z) :
  start_of_day America_New_York t <= t /\
  forall t', t <= t' ->
    start_of_day America_New_York t <= start_of_day America_New_York t'.
Proof.
  unfold start_of_day, day_start, local_day, UTC, LocalTime, America_New_York,
    msPerDay, msPerHour.
  split; [|intros t' Ht];
    repeat match goal with
    | |- context [?a <? ?b] => destruct (Z.ltb_spec a b)
    end; Z.div_mod_to_equations; lia.
Qed.

(** X29. On a day at whose start the local clocks show 00:00, in a time
    zone in which the start of the local day of an instant never lies after
    the instant and never goes back as time goes on, the tasks due today are
    exactly the tasks, in their order, whose due date lies in the interval
    from the start of the current local day (included) to the start of the
    next local day (excluded), however long the day is; a task without due
    date is never among them, a task due at the start of today is included
    and a task due tomorrow at 00:00:00 is excluded. *)
Theorem getTasksDueToday_is_local_day (LocalTZA : Z -> bool -> Z) (now : Z)
    (tasks : list Task) :
  let n := local_day LocalTZA now in
  let today := day_start LocalTZA n in
  let tomorrow := day_start LocalTZA (n + 1) in
  (forall t t', t <= t' -> start_of_day LocalTZA t <= start_of_day LocalTZA t') ->
  (forall t, start_of_day LocalTZA t <= t) ->
  LocalTime LocalTZA today = n * msPerDay ->
  local_day LocalTZA tomorrow = n + 1 ->
  Z.abs today <= 8640000000000000 ->
  Z.abs tomorrow <= 8640000000000000 ->
  getTasksDueToday LocalTZA (mkDate (Num now)) tasks
    = List.filter (due_within today tomorrow) tasks /\
  today <= now /\
  (forall t, In t (getTasksDueToday LocalTZA (mkDate (Num now)) tasks) ->
             dueDate t <> None) /\
  (forall t, dueDate t = Some (mkDate (Num today)) -> today < tomorrow ->
             getTasksDueToday LocalTZA (mkDate (Num now)) [t] = [t]) /\
  (forall t, dueDate t = Some (mkDate (Num tomorrow)) ->
             getTasksDueToday LocalTZA (mkDate (Num now)) [t] = []).
Proof.
  cbv zeta. intros Hmono Hle Hmidnight Htomorrow Hr1 Hr2.
  pose proof (fun l => getTasksDueToday_window LocalTZA now l
                         Hmono Hle Hmidnight Htomorrow Hr1 Hr2) as Heq.
  cbv zeta in Heq.
  split; [apply Heq|]. split; [apply Hle|]. split; [|split].
  - intros t Hin. rewrite Heq in Hin. apply List.filter_In in Hin.
    destruct Hin as [_ Hin]. unfold due_within in Hin.
    destruct (dueDate t); [discriminate|discriminate].
  - intros t Ht Hlt. rewrite Heq. simpl. unfold due_within. rewrite Ht. simpl.
    apply Z.ltb_lt in Hlt. rewrite Hlt, Z.leb_refl. reflexivity.
  - intros t Ht. rewrite Heq. simpl. unfold due_within. rewrite Ht. simpl.
    now rewrite Z.ltb_irrefl, andb_false_r.
Qed.

(** New York on 2024-03-10, the day on which daylight saving time starts
    and which has 23 hours, seen at 15:00 UTC: a task due at 23:30 local
    time is due today, and a task due at 00:30 of the next day, less than
    24 hours after the start of today, is not. *)
Lemma getTasksDueToday_is_local_day_witness :
  let now := 1710082800000 in
  let late := sample_task "task_2" todo high (Some (mkDate (Num 1710127800000))) in
  let next := sample_task "task_3" todo high (Some (mkDate (Num 1710131400000))) in
  day_start America_New_York (local_day America_New_York now) = 1710046800000 /\
  day_start America_New_York (local_day America_New_York now + 1)
  = 1710046800000 + 23 * msPerHour /\
  getTasksDueToday America_New_York (mkDate (Num now)) [late; next] = [late].
Proof.
  cbv zeta. split; [reflexivity|]. split; [reflexivity|].
  destruct (getTasksDueToday_is_local_day America_New_York 1710082800000
              [sample_task "task_2" todo high (Some (mkDate (Num 1710127800000)));
               sample_task "task_3" todo high (Some (mkDate (Num 1710131400000)))])
    as (Heq & _).
  - intros t t' Ht. now apply America_New_York_start_of_day.
  - intros t. apply America_New_York_start_of_day.
  - reflexivity.
  - reflexivity.
  - vm_compute. discriminate.
  - vm_compute. discriminate.
  - rewrite Heq. reflexivity.
Defined.

(** ** Updating a task *)

Lemma updateTask_unfold (now : Date) (task updates : JsObject) :
  updateTask now task updates
  = <["updatedAt" := VDate (getTime now)]> (updates ∪ (task ∪ ∅)).
Proof. reflexivity. Qed.

Lemma updateTask_lookup (now : Date) (task updates : JsObject) (k : string) :
  updateTask now task updates !! k =
  if decide (k = "updatedAt") then Some (VDate (getTime now))
  else match updates !! k with
       | Some v => Some v
       | None => task !! k
       end.
Proof.
  rewrite updateTask_unfold, (right_id_L ∅ (∪)).
  destruct (decide (k = "updatedAt")) as [->|Hne].
  - apply lookup_insert_eq.
  - rewrite lookup_insert_ne by congruence.
    rewrite lookup_union. destruct (updates !! k), (task !! k); reflexivity.
Qed.

(** C10. A property of the updated task that is neither supplied by the
    change set nor [updatedAt] is the property of the task that was given:
    present with the same value, or absent as before. *)
Theorem updateTask_frame (now : Date) (task updates : JsObject) (k : string) :
  updates !! k = None ->
  k <> "updatedAt" ->
  updateTask now task updates !! k = task !! k.
Proof.
  intros Hk Hne. rewrite updateTask_lookup, Hk.
  destruct (decide (k = "updatedAt")); [contradiction|reflexivity].
Qed.

Lemma updateTask_frame_witness :
  updateTask (mkDate (Num 2000)) (Task_to_object stored_task) changes_status !! "title"
  = Task_to_object stored_task !! "title".
Proof.
  apply updateTask_frame.
  - reflexivity.
  - discriminate.
Defined.

(** ** Generated identifiers *)






(** ** The reconciler *)

Lemma get_prop_record (ms : list (string * json)) (k : string) :
  get_prop (JObj ms) k = Normal (member k ms).
Proof. reflexivity. Qed.

Lemma object_literal_snoc (items : list literal_item) (it : literal_item) :
  object_literal (items ++ [it]) = literal_step (object_literal items) it.
Proof. unfold object_literal. now rewrite fold_left_app. Qed.

Lemma dueDate_spread_dueDate (new_Date : json -> num) (d : value) :
  dueDate_spread new_Date d !! "dueDate" =
  if truthy d then Some (VDate (new_Date_of new_Date d)) else None.
Proof. unfold dueDate_spread. destruct (truthy d); reflexivity. Qed.

Lemma dueDate_spread_other (new_Date : json -> num) (d : value) (k : string) :
  k <> "dueDate" -> dueDate_spread new_Date d !! k = None.
Proof.
  intros Hk. unfold dueDate_spread.
  destruct (truthy d); [|apply lookup_empty].
  unfold object_literal. simpl. rewrite lookup_insert_ne by congruence. apply lookup_empty.
Qed.





(** The specification's round trip: one record with the title "Buy milk". *)
Lemma processGeneratedTasks_buy_milk :
  exists task,
    processGeneratedTasks host_new_Date readings_1 [buy_milk] = Normal [task] /\
    task !! "title" = Some (VStr "Buy milk") /\
    task !! "priority" = Some (VStr "medium") /\
    task !! "status" = Some (VStr "todo") /\
    task !! "category" = Some (VStr "general") /\
    task !! "aiGenerated" = Some (VJson (JBool true)) /\
    task !! "id" = Some (VStr "task_1710500000001_k3j9x0a1b").
Proof. eexists. repeat split. Qed.


Lemma processGeneratedTask_dueDate
    (new_Date : json -> num) (rd : Reading) (ms : list (string * json)) :
  exists task,
    processGeneratedTask new_Date rd (JObj ms) = Normal task /\
    task !! "dueDate" = dueDate_spread new_Date (member "dueDate" ms) !! "dueDate".
Proof.
  eexists. split.
  { unfold processGeneratedTask. rewrite !get_prop_record. cbn [bind]. reflexivity. }
  match goal with
  | |- object_literal (?a :: ?b :: ?c :: ?d :: ?e :: ?f :: ?g :: ?h :: ?i :: ?j :: [?s]) !! _ = _ =>
      change (a :: b :: c :: d :: e :: f :: g :: h :: i :: j :: [s])
        with ([a; b; c; d; e; f; g; h; i; j] ++ [s])
  end.
  rewrite object_literal_snoc. simpl literal_step.
  rewrite lookup_union.
  destruct (dueDate_spread new_Date (member "dueDate" ms) !! "dueDate"); reflexivity.
Qed.

Lemma processExtractedTask_dueDate
    (new_Date : json -> num) (documentName : string) (rd : Reading)
    (ms : list (string * json)) :
  exists task,
    processExtractedTask new_Date documentName rd (JObj ms) = Normal task /\
    task !! "dueDate" = dueDate_spread new_Date (member "dueDate" ms) !! "dueDate".
Proof.
  eexists. split.
  { unfold processExtractedTask. rewrite !get_prop_record. cbn [bind]. reflexivity. }
  match goal with
  | |- object_literal (?a :: ?b :: ?c :: ?d :: ?e :: ?f :: ?g :: ?h :: ?i :: ?j :: ?k :: [?s]) !! _ = _ =>
      change (a :: b :: c :: d :: e :: f :: g :: h :: i :: j :: k :: [s])
        with ([a; b; c; d; e; f; g; h; i; j; k] ++ [s])
  end.
  rewrite object_literal_snoc. simpl literal_step.
  rewrite lookup_union.
  destruct (dueDate_spread new_Date (member "dueDate" ms) !! "dueDate"); reflexivity.
Qed.

(** C3, as the code has it. For every record whose [dueDate] is a non-empty
    string, both routes return a task, without raising, whose [dueDate] is
    the [Date] made from that string: when the string cannot be parsed the
    field is present and holds an Invalid Date (time value NaN); it is not
    left out. The field is left out only when the record's [dueDate] is
    absent or empty. *)
Theorem reconciler_stores_invalid_dueDate
    (new_Date : json -> num) (documentName : string) (rd : Reading)
    (ms : list (string * json)) (s : string) :
  members_get "dueDate" ms = Some (JStr s) ->
  exists generated extracted,
    processGeneratedTask new_Date rd (JObj ms) = Normal generated /\
    processExtractedTask new_Date documentName rd (JObj ms) = Normal extracted /\
    (s <> EmptyString ->
       generated !! "dueDate" = Some (VDate (new_Date (JStr s))) /\
       extracted !! "dueDate" = Some (VDate (new_Date (JStr s)))) /\
    (s <> EmptyString -> new_Date (JStr s) = NaN ->
       generated !! "dueDate" = Some (VDate NaN) /\
       extracted !! "dueDate" = Some (VDate NaN)) /\
    (s = EmptyString ->
       generated !! "dueDate" = None /\ extracted !! "dueDate" = None).
Proof.
  intros Hs.
  destruct (processGeneratedTask_dueDate new_Date rd ms) as (g & Hg & Hgd).
  destruct (processExtractedTask_dueDate new_Date documentName rd ms) as (e & He & Hed).
  exists g, e. split; [exact Hg|]. split; [exact He|].
  rewrite Hgd, Hed, dueDate_spread_dueDate. unfold member. rewrite Hs. simpl.
  repeat split.
  - destruct s; [contradiction|reflexivity].
  - destruct s; [contradiction|reflexivity].
  - destruct s; [contradiction|]. simpl. now f_equal; f_equal.
  - destruct s; [contradiction|]. simpl. now f_equal; f_equal.
  - subst s. reflexivity.
  - subst s. reflexivity.
Qed.

Lemma reconciler_stores_invalid_dueDate_witness :
  exists generated extracted,
    processGeneratedTask host_new_Date reading_1 record_good_date = Normal generated /\
    processExtractedTask host_new_Date "minutes.txt" reading_1 record_good_date
      = Normal extracted /\
    generated !! "dueDate" = Some (VDate (Num 1710460800000)) /\
    extracted !! "dueDate" = Some (VDate (Num 1710460800000)).
Proof.
  destruct (reconciler_stores_invalid_dueDate host_new_Date "minutes.txt" reading_1
              [("title", JStr "Send invoice"); ("dueDate", JStr "2024-03-15")]
              "2024-03-15" eq_refl)
    as (g & e & Hg & He & Hd & _).
  exists g, e. split; [exact Hg|]. split; [exact He|].
  apply Hd. discriminate.
Defined.

(** C3, as stated, fails: a record whose [dueDate] string cannot be parsed
    gives a task that has a [dueDate], an Invalid Date, in both routes. *)
Lemma reconciler_keeps_unparseable_dueDate :
  host_new_Date (JStr "next Friday-ish") = NaN /\
  (exists task,
     processGeneratedTask host_new_Date reading_1 record_bad_date = Normal task /\
     task !! "dueDate" = Some (VDate NaN) /\
     task !! "dueDate" <> None) /\
  (exists task,
     processExtractedTask host_new_Date "minutes.txt" reading_1 record_bad_date
       = Normal task /\
     task !! "dueDate" = Some (VDate NaN) /\
     task !! "dueDate" <> None).
Proof.
  split; [reflexivity|].
  split; eexists; (split; [reflexivity|]); (split; [reflexivity|discriminate]).
Qed.

(** ** The reconciler on a list of records *)

(** The map callback returns a task for whatever is not [null]. *)
Lemma processGeneratedTask_Normal (new_Date : json -> num) (rd : Reading) (taskData : json) :
  taskData <> JNull ->
  exists task, processGeneratedTask new_Date rd taskData = Normal task.
Proof.
  intros H. unfold processGeneratedTask.
  destruct taskData; try contradiction; simpl; eauto.
Qed.

(** A [null] among the generated tasks makes the callback throw, which the
    route answers with status 500. *)
Lemma processGeneratedTask_null (new_Date : json -> num) (rd : Reading) :
  processGeneratedTask new_Date rd JNull = Throw TypeError.
Proof. reflexivity. Qed.

Lemma Array_map_records (callback : Reading -> json -> Completion JsObject)
    (readings : nat -> Reading) (i : nat) (items : list json) :
  (forall rd item, In item items -> exists task, callback rd item = Normal task) ->
  exists tasks,
    Array_map callback readings i items = Normal tasks /\
    length tasks = length items /\
    forall n item, items !! n = Some item ->
      exists task, tasks !! n = Some task /\
                   callback (readings (i + n)%nat) item = Normal task.
Proof.
  revert i. induction items as [|item rest IH]; intros i Hcb.
  - exists []. repeat split. intros n item Hn. destruct n; discriminate.
  - destruct (Hcb (readings i) item (or_introl eq_refl)) as [task Htask].
    destruct (IH (S i) (fun rd it Hin => Hcb rd it (or_intror Hin))) as (tasks & Hm & Hl & Hn).
    exists (task :: tasks). cbn [Array_map]. rewrite Htask, Hm. simpl.
    split; [reflexivity|]. split; [now rewrite Hl|].
    intros [|n] it Hit; simpl in Hit.
    + injection Hit as <-. exists task. rewrite Nat.add_0_r. auto.
    + destruct (Hn n it Hit) as (t & Ht & Hc). exists t. split; [exact Ht|].
      now replace (i + S n)%nat with (S i + n)%nat by lia.
Qed.

(** One task per record, in the order of the records. *)
Lemma processGeneratedTasks_records (new_Date : json -> num) (readings : nat -> Reading)
    (generatedTasks : list json) :
  forallb is_record generatedTasks = true ->
  exists tasks,
    processGeneratedTasks new_Date readings generatedTasks = Normal tasks /\
    length tasks = length generatedTasks /\
    forall n item, generatedTasks !! n = Some item ->
      exists task, tasks !! n = Some task /\
                   processGeneratedTask new_Date (readings n) item = Normal task.
Proof.
  intros H. unfold processGeneratedTasks.
  destruct (Array_map_records (processGeneratedTask new_Date) readings 0 generatedTasks)
    as (tasks & Hm & Hl & Hn).
  - intros rd item Hin. apply processGeneratedTask_Normal.
    rewrite forallb_forall in H. specialize (H item Hin). now destruct item.
  - exists tasks. auto.
Qed.


(** ** The PUT handler *)

Lemma object_of_members_lookup (ms : list (string * json)) (k : string) :
  object_of_members ms !! k = option_map VJson (members_get k ms).
Proof.
  induction ms as [|[k' v] r IH]; simpl.
  - apply lookup_empty.
  - destruct (String.eqb_spec k k') as [->|Hne].
    + apply lookup_insert_eq.
    + rewrite lookup_insert_ne by congruence. exact IH.
Qed.

Lemma findIndex_Some {A : Type} (p : A -> bool) (l : list A) (i : nat) :
  findIndex p l = Some i -> exists x, l !! i = Some x /\ p x = true.
Proof.
  revert i. induction l as [|x r IH]; intros i; simpl; [discriminate|].
  destruct (p x) eqn:Hp.
  - intros [= <-]. eauto.
  - destruct (findIndex p r) as [j|]; [|discriminate].
    intros [= <-]. destruct (IH j eq_refl) as (y & Hy & Hpy). eauto.
Qed.

Lemma PUT_updatedTask_lookup (new_Date : json -> num) (now : Date) (stored : JsObject)
    (ms : list (string * json)) (k : string) :
  k <> "dueDate" -> k <> "updatedAt" ->
  PUT_updatedTask new_Date now stored ms !! k =
  match members_get k ms with
  | Some v => Some (VJson v)
  | None => stored !! k
  end.
Proof.
  intros Hd Hu. unfold PUT_updatedTask, object_literal. simpl.
  rewrite lookup_union_r by now apply dueDate_spread_other.
  rewrite lookup_insert_ne by congruence.
  rewrite (right_id_L ∅ (∪)), lookup_union, object_of_members_lookup.
  destruct (members_get k ms), (stored !! k); reflexivity.
Qed.

Lemma PUT_updatedTask_updatedAt (new_Date : json -> num) (now : Date) (stored : JsObject)
    (ms : list (string * json)) :
  PUT_updatedTask new_Date now stored ms !! "updatedAt" = Some (VDate (getTime now)).
Proof.
  unfold PUT_updatedTask, object_literal. simpl.
  rewrite lookup_union_r by now apply dueDate_spread_other.
  apply lookup_insert_eq.
Qed.

(** C6, as the code has it. An update leaves [id] and [createdAt] as they
    were whenever the change set does not supply them, and a change set that
    supplies one of them overwrites it; [updatedAt] becomes the current clock
    reading, whatever the change set says, so it is greater than or equal to
    the stored [updatedAt] exactly when the clock reading is. The PUT
    handler builds the updated task in the same way from the stored task and
    the request. *)
Theorem updateTask_id_createdAt_updatedAt (now : Date) (task updates : JsObject) :
  (updates !! "id" = None ->
     updateTask now task updates !! "id" = task !! "id") /\
  (updates !! "createdAt" = None ->
     updateTask now task updates !! "createdAt" = task !! "createdAt") /\
  (forall v, updates !! "id" = Some v ->
     updateTask now task updates !! "id" = Some v) /\
  (forall v, updates !! "createdAt" = Some v ->
     updateTask now task updates !! "createdAt" = Some v) /\
  updateTask now task updates !! "updatedAt" = Some (VDate (getTime now)) /\
  (forall before,
     task !! "updatedAt" = Some (VDate before) ->
     (num_ge (getTime now) before = true <->
      exists after,
        updateTask now task updates !! "updatedAt" = Some (VDate after) /\
        num_ge after before = true)) /\
  (forall new_Date ms k, k = "id" \/ k = "createdAt" ->
     PUT_updatedTask new_Date now task ms !! k
     = match members_get k ms with
       | Some v => Some (VJson v)
       | None => task !! k
       end) /\
  (forall new_Date ms,
     PUT_updatedTask new_Date now task ms !! "updatedAt" = Some (VDate (getTime now))).
Proof.
  split; [|split; [|split; [|split; [|split; [|split; [|split]]]]]].
  - intros H. rewrite updateTask_lookup, H. reflexivity.
  - intros H. rewrite updateTask_lookup, H. reflexivity.
  - intros v H. rewrite updateTask_lookup, H. reflexivity.
  - intros v H. rewrite updateTask_lookup, H. reflexivity.
  - rewrite updateTask_lookup. reflexivity.
  - intros before _. rewrite updateTask_lookup. simpl. split.
    + intros Hge. exists (getTime now). now split.
    + intros (after & [= <-] & Hge). exact Hge.
  - intros new_Date ms k [->| ->]; now apply PUT_updatedTask_lookup.
  - intros new_Date ms. apply PUT_updatedTask_updatedAt.
Qed.

Lemma updateTask_id_createdAt_updatedAt_witness :
  let now := mkDate (Num 2000) in
  let task := Task_to_object stored_task in
  updateTask now task changes_status !! "id" = Some (VStr "task_1") /\
  updateTask now task changes_status !! "createdAt" = Some (VDate (Num 1000)) /\
  exists after,
    updateTask now task changes_status !! "updatedAt" = Some (VDate after) /\
    num_ge after (Num 1000) = true.
Proof.
  cbv zeta.
  destruct (updateTask_id_createdAt_updatedAt (mkDate (Num 2000))
              (Task_to_object stored_task) changes_status)
    as (Hid & Hcreated & _ & _ & _ & Hupdated & _).
  split; [|split].
  - rewrite Hid; reflexivity.
  - rewrite Hcreated; reflexivity.
  - apply (Hupdated (Num 1000)); reflexivity.
Defined.

(** C6, as stated, fails: a change set that carries an [id] replaces the id
    of the task, and one that carries a [createdAt] replaces its creation
    time; and [updatedAt] goes back when the clock does: a task last
    modified at 1000 and updated at a clock reading of 500 has [updatedAt]
    500. *)
Lemma updateTask_overwrites_id_and_follows_clock :
  let now := mkDate (Num 2000) in
  let task := Task_to_object stored_task in
  task !! "id" = Some (VStr "task_1") /\
  updateTask now task changes_id !! "id" = Some (VStr "task_other") /\
  updateTask now task changes_id !! "id" <> task !! "id" /\
  updateTask now task changes_createdAt !! "createdAt" <> task !! "createdAt" /\
  task !! "updatedAt" = Some (VDate (Num 1000)) /\
  updateTask (mkDate (Num 500)) task changes_status !! "updatedAt"
  = Some (VDate (Num 500)) /\
  num_ge (Num 500) (Num 1000) = false.
Proof. cbv zeta. repeat split; discriminate. Qed.

(** A successful PUT replaces one stored task by the updated one. The id of
    the updated task is the id of the request, which is how the stored task
    was found; [updatedAt] is the clock reading; every other property but
    [dueDate], [createdAt] included, is taken from the request when the
    request has it. *)
Lemma PUT_success (new_Date : json -> num) (now : Date) (tasksStore store' : list JsObject)
    (taskData : json) (updatedTask : JsObject) :
  PUT new_Date now tasksStore taskData = (Put200 updatedTask, store') ->
  exists taskIndex stored ms,
    taskData = JObj ms /\
    tasksStore !! taskIndex = Some stored /\
    store' = <[taskIndex := updatedTask]> tasksStore /\
    strict_equals (object_get stored "id") (object_get updatedTask "id") = true /\
    updatedTask !! "updatedAt" = Some (VDate (getTime now)) /\
    forall k, k <> "dueDate" -> k <> "updatedAt" ->
      updatedTask !! k =
      match members_get k ms with
      | Some v => Some (VJson v)
      | None => stored !! k
      end.
Proof.
  unfold PUT. destruct taskData as [| | | | |ms]; try discriminate.
  destruct (truthy (member "id" ms)) eqn:Ht; simpl; [|discriminate].
  destruct (findIndex _ tasksStore) as [i|] eqn:Hi; [|discriminate].
  apply findIndex_Some in Hi. destruct Hi as (x & Hx & Hpx). rewrite Hx.
  intros [= <- <-]. exists i, x, ms. repeat split; try assumption.
  - unfold object_get at 2. rewrite PUT_updatedTask_lookup by discriminate.
    unfold member in Ht, Hpx.
    destruct (members_get "id" ms); [exact Hpx|discriminate].
  - apply PUT_updatedTask_updatedAt.
  - intros k Hd Hu. now apply PUT_updatedTask_lookup.
Qed.

(** A request that carries a [createdAt] overwrites the creation time of the
    stored task. *)
Lemma PUT_overwrites_createdAt :
  exists updatedTask,
    fst (PUT host_new_Date (mkDate (Num 2000)) [Task_to_object stored_task] put_request)
      = Put200 updatedTask /\
    Task_to_object stored_task !! "createdAt" = Some (VDate (Num 1000)) /\
    updatedTask !! "createdAt" = Some (VStr "2001-01-01") /\
    updatedTask !! "id" = Some (VStr "task_1").
Proof. eexists. repeat split. Qed.

(** * Further properties *)

(** ** The statistics count what is there *)

Lemma stats_fold_counts (now : Date) (tasks : list Task) (s : TaskStats) :
  let r := fold_left (stats_step now) tasks s in
  total r = total s /\
  completedCount r
    = completedCount s + count_tasks (fun t => Status_eqb (status t) completed) tasks /\
  inProgress r
    = inProgress s + count_tasks (fun t => Status_eqb (status t) in_progress) tasks /\
  forall p, byPriority r p
    = byPriority s p + count_tasks (fun t => Priority_eqb (priority t) p) tasks.
Proof.
  revert s. induction tasks as [|t r IH]; intros s; cbv zeta.
  - unfold count_tasks. simpl. repeat split; intros; lia.
  - cbn [fold_left]. destruct (IH (stats_step now s t)) as (Ht & Hc & Hi & Hp).
    rewrite Ht, Hc, Hi. unfold count_tasks in *. cbn [List.filter].
    repeat split.
    + simpl. destruct (status t); simpl; lia.
    + simpl. destruct (status t); simpl; lia.
    + intros p. rewrite Hp. simpl. unfold bump_priority.
      destruct (Priority_eqb (priority t) p) eqn:E.
      * assert (Priority_eqb p (priority t) = true) as -> by (destruct p, (priority t); auto).
        simpl. lia.
      * assert (Priority_eqb p (priority t) = false) as -> by (destruct p, (priority t); auto).
        lia.
Qed.

Lemma count_tasks_split4 (tasks : list Task) :
  count_tasks (fun t => Priority_eqb (priority t) low) tasks
  + count_tasks (fun t => Priority_eqb (priority t) medium) tasks
  + count_tasks (fun t => Priority_eqb (priority t) high) tasks
  + count_tasks (fun t => Priority_eqb (priority t) urgent) tasks
  = Z.of_nat (length tasks).
Proof.
  unfold count_tasks. induction tasks as [|t r IH]; [reflexivity|].
  cbn [List.filter length]. destruct (priority t); simpl; lia.
Qed.

Lemma count_tasks_bounds (p q : Task -> bool) (tasks : list Task) :
  (forall t, p t && q t = false) ->
  0 <= count_tasks p tasks /\
  count_tasks p tasks + count_tasks q tasks <= Z.of_nat (length tasks).
Proof.
  intros Hpq. unfold count_tasks. induction tasks as [|t r IH]; [simpl; lia|].
  cbn [List.filter length]. specialize (Hpq t).
  destruct (p t), (q t); try discriminate; simpl; lia.
Qed.

(** X1. The statistics of a collection hold its size as [total], the number
    of completed tasks and the number of tasks in progress; every task is
    counted under exactly one priority, so the four priority counters add up
    to [total], and completed and in-progress tasks together never exceed it. *)
Theorem calculateTaskStats_counts (now : Date) (tasks : list Task) :
  let stats := calculateTaskStats now tasks in
  total stats = Z.of_nat (length tasks) /\
  completedCount stats = count_tasks (fun t => Status_eqb (status t) completed) tasks /\
  inProgress stats = count_tasks (fun t => Status_eqb (status t) in_progress) tasks /\
  (forall p, byPriority stats p = count_tasks (fun t => Priority_eqb (priority t) p) tasks) /\
  byPriority stats low + byPriority stats medium + byPriority stats high
    + byPriority stats urgent = total stats /\
  0 <= completedCount stats /\
  completedCount stats + inProgress stats <= total stats.
Proof.
  cbv zeta. unfold calculateTaskStats.
  destruct (stats_fold_counts now tasks
              (mkTaskStats (Z.of_nat (length tasks)) 0 0 0 (fun _ => 0) ∅))
    as (Ht & Hc & Hi & Hp).
  cbn [total completedCount inProgress byPriority] in *.
  rewrite Ht, Hc, Hi, !Hp. rewrite !Z.add_0_l.
  pose proof (count_tasks_split4 tasks) as H4.
  destruct (count_tasks_bounds (fun t => Status_eqb (status t) completed)
              (fun t => Status_eqb (status t) in_progress) tasks) as [Hb1 Hb2].
  { intros t. now destruct (status t). }
  repeat split; try lia.
  intros p. rewrite Hp. lia.
Qed.

(** What one more task of the category [c] makes of the counters. *)
Lemma bump_category_lookup (m : gmap string num) (c k : string) :
  bump_category m c !! k =
  if String.eqb k c && negb (String.eqb c "__proto__") then
    Some (match m !! c with
          | Some (Num n) => if n =? 0 then Num 1 else Num (n + 1)
          | Some NaN => Num 1
          | None => if Object_prototype_method c then NaN else Num 1
          end)
  else m !! k.
Proof.
  unfold bump_category.
  destruct (String.eqb c "__proto__") eqn:Ep; [now rewrite andb_false_r|].
  rewrite andb_true_r.
  destruct (String.eqb_spec k c) as [->|Hne].
  - destruct (m !! c) as [[n|]|] eqn:E.
    + destruct (Z.eqb_spec n 0) as [->|Hn].
      * rewrite lookup_insert_eq. now rewrite lookup_insert_eq.
      * rewrite E. now rewrite lookup_insert_eq.
    + rewrite lookup_insert_eq. now rewrite lookup_insert_eq.
    + destruct (Object_prototype_method c).
      * rewrite E. now rewrite lookup_insert_eq.
      * rewrite lookup_insert_eq. now rewrite lookup_insert_eq.
  - destruct (m !! c) as [[n|]|] eqn:E.
    + destruct (Z.eqb_spec n 0) as [->|Hn].
      * rewrite lookup_insert_eq. rewrite !lookup_insert_ne by congruence. reflexivity.
      * rewrite E. now rewrite lookup_insert_ne by congruence.
    + rewrite lookup_insert_eq. rewrite !lookup_insert_ne by congruence. reflexivity.
    + destruct (Object_prototype_method c).
      * rewrite E. now rewrite lookup_insert_ne by congruence.
      * rewrite lookup_insert_eq. rewrite !lookup_insert_ne by congruence. reflexivity.
Qed.

(** The histogram is made from the categories alone, one after the other. *)
Lemma stats_fold_byCategory (now : Date) (tasks : list Task) (s : TaskStats) :
  byCategory (fold_left (stats_step now) tasks s)
  = fold_left bump_category (map category tasks) (byCategory s).
Proof.
  revert s. induction tasks as [|t r IH]; intros s; [reflexivity|].
  cbn [fold_left map]. now rewrite IH.
Qed.

Lemma bump_categories_lookup (categories : list string) (c : string) :
  fold_left bump_category categories ∅ !! c = category_counter c (occurrences c categories).
Proof.
  induction categories as [|c' l IH] using rev_ind; [unfold category_counter; simpl |].
  { rewrite lookup_empty. destruct (String.eqb c "__proto__"); [reflexivity|].
    now destruct (Object_prototype_method c). }
  rewrite fold_left_app. cbn [fold_left]. rewrite bump_category_lookup.
  unfold occurrences in *. rewrite List.filter_app, length_app. cbn [List.filter].
  destruct (String.eqb_spec c c') as [<-|Hne].
  - cbn [length]. rewrite IH. unfold category_counter.
    set (n := length (List.filter (String.eqb c) l)).
    destruct (String.eqb c "__proto__"); [reflexivity|]. simpl negb. cbv iota.
    replace (Z.of_nat (n + 1)) with (Z.of_nat n + 1) by lia.
    destruct (Object_prototype_method c).
    + destruct (Z.eqb_spec (Z.of_nat n) 0) as [H0|H0].
      * replace (Z.of_nat n + 1 =? 0) with false by (symmetry; apply Z.eqb_neq; lia).
        replace (Z.of_nat n + 1 =? 1) with true by (symmetry; apply Z.eqb_eq; lia).
        reflexivity.
      * replace (Z.of_nat n + 1 =? 0) with false by (symmetry; apply Z.eqb_neq; lia).
        replace (Z.of_nat n + 1 =? 1) with false by (symmetry; apply Z.eqb_neq; lia).
        destruct (Z.eqb_spec (Z.of_nat n) 1) as [H1|H1].
        -- do 2 f_equal. lia.
        -- replace (Z.of_nat n - 1 =? 0) with false by (symmetry; apply Z.eqb_neq; lia).
           do 2 f_equal. lia.
    + replace (Z.of_nat n + 1 =? 0) with false by (symmetry; apply Z.eqb_neq; lia).
      destruct (Z.eqb_spec (Z.of_nat n) 0) as [H0|H0].
      * do 2 f_equal. lia.
      * replace (Z.of_nat n =? 0) with false by (symmetry; apply Z.eqb_neq; lia).
        reflexivity.
  - cbn [length]. rewrite Nat.add_0_r. simpl andb. cbv iota. exact IH.
Qed.

(** X2. The category histogram of a collection. For a category that is not
    the name of a property of [Object.prototype], the histogram has a key
    exactly when the category occurs, and the value of the key is the number
    of tasks of that category, never zero. A category that is the name of a
    method of [Object.prototype] (constructor, toString, valueOf and the
    like) is miscounted: one task gives NaN, and two or more give one less
    than their number. The category [__proto__] is never counted. *)
Theorem calculateTaskStats_byCategory (now : Date) (tasks : list Task) (c : string) :
  let n := count_tasks (fun t => String.eqb c (category t)) tasks in
  let counter := byCategory (calculateTaskStats now tasks) !! c in
  counter
  = (if String.eqb c "__proto__" then None
     else if Object_prototype_method c then
       if n =? 0 then None else if n =? 1 then Some NaN else Some (Num (n - 1))
     else
       if n =? 0 then None else Some (Num n)) /\
  (c <> "__proto__" ->
   (counter = None <-> forall t, In t tasks -> category t <> c)).
Proof.
  cbv zeta. unfold calculateTaskStats. rewrite stats_fold_byCategory.
  cbn [byCategory]. rewrite bump_categories_lookup.
  assert (Hcount : Z.of_nat (occurrences c (map category tasks))
                   = count_tasks (fun t => String.eqb c (category t)) tasks).
  { unfold occurrences, count_tasks. f_equal.
    induction tasks as [|t r IH]; [reflexivity|]. simpl.
    destruct (String.eqb c (category t)); simpl; now rewrite IH. }
  unfold category_counter. rewrite Hcount.
  set (n := count_tasks _ tasks). split; [reflexivity|].
  intros Hc. apply String.eqb_neq in Hc. rewrite Hc.
  assert (Hn : n = 0 <-> forall t, In t tasks -> category t <> c).
  { subst n. unfold count_tasks. split.
    - intros H t Hin Ht.
      assert (Hf : In t (List.filter (fun t => String.eqb c (category t)) tasks)).
      { apply List.filter_In. split; [assumption|]. apply String.eqb_eq. auto. }
      destruct (List.filter _ tasks); [contradiction|simpl in H; lia].
    - intros H. destruct (List.filter _ tasks) as [|t r] eqn:E; [reflexivity|].
      exfalso. assert (Hin : In t (List.filter (fun t => String.eqb c (category t)) tasks))
        by (rewrite E; now left).
      apply List.filter_In in Hin. destruct Hin as [Hin Ht].
      apply String.eqb_eq in Ht. now apply (H t Hin). }
  destruct (Z.eqb_spec n 0) as [H0|H0].
  - split; [intros _; now apply Hn|]. intros _. now destruct (Object_prototype_method c).
  - split; [|intros H; exfalso; apply H0; now apply Hn].
    destruct (Object_prototype_method c); [destruct (n =? 1)|]; discriminate.
Qed.

Lemma calculateTaskStats_byCategory_witness :
  let tasks := [ sample_task_in "work"; sample_task_in "constructor";
                 sample_task_in "work"; sample_task_in "__proto__" ] in
  let histogram := byCategory (calculateTaskStats (mkDate (Num 2000)) tasks) in
  histogram !! "work" = Some (Num 2) /\
  histogram !! "constructor" = Some NaN /\
  histogram !! "__proto__" = None /\
  histogram !! "home" = None.
Proof.
  cbv zeta.
  pose proof (fun c => proj1 (calculateTaskStats_byCategory (mkDate (Num 2000))
                [ sample_task_in "work"; sample_task_in "constructor";
                  sample_task_in "work"; sample_task_in "__proto__" ] c)) as H.
  cbv zeta in H.
  split; [rewrite H; reflexivity|]. split; [rewrite H; reflexivity|].
  split; [rewrite H; reflexivity|].
  destruct (calculateTaskStats_byCategory (mkDate (Num 2000))
              [ sample_task_in "work"; sample_task_in "constructor";
                sample_task_in "work"; sample_task_in "__proto__" ] "home") as [_ Hnone].
  apply Hnone; [discriminate|].
  intros t [<-|[<-|[<-|[<-|[]]]]]; discriminate.
Defined.

(** ** Filtering *)

(** X3. A filter without criteria returns the collection as it is, while a
    status, priority or category criterion that is an empty list returns
    nothing: an empty list is not taken as "no constraint". *)
Theorem filterTasks_no_criteria_and_empty_list (tasks : list Task) (f : TaskFilter) :
  filterTasks tasks no_criteria = tasks /\
  (filter_status f = Some [] \/ filter_priority f = Some [] \/ filter_category f = Some [] ->
   filterTasks tasks f = []).
Proof.
  split.
  - unfold filterTasks. induction tasks as [|t r IH]; [reflexivity|].
    simpl. now rewrite IH.
  - intros H. unfold filterTasks. induction tasks as [|t r IH]; [reflexivity|].
    cbn [List.filter]. rewrite IH.
    assert (filter_accepts f t = false) as ->; [|reflexivity].
    unfold filter_accepts.
    destruct H as [H|[H|H]]; rewrite H; simpl.
    + reflexivity.
    + now rewrite andb_false_r.
    + now rewrite !andb_false_r.
Qed.

Lemma filterTasks_no_criteria_and_empty_list_witness :
  filterTasks [cancelled_past_due; stored_task]
    (mkTaskFilter (Some []) None None None None) = [].
Proof.
  apply (filterTasks_no_criteria_and_empty_list [cancelled_past_due; stored_task]).
  left. reflexivity.
Defined.

(** X4. Filtering works task by task and keeps the order: it distributes
    over the concatenation of collections, filtering again by the same filter
    changes nothing, and two filters can be applied in either order. *)
Theorem filterTasks_compose (tasks tasks' : list Task) (f g : TaskFilter) :
  filterTasks (tasks ++ tasks') f = filterTasks tasks f ++ filterTasks tasks' f /\
  filterTasks (filterTasks tasks f) f = filterTasks tasks f /\
  filterTasks (filterTasks tasks f) g = filterTasks (filterTasks tasks g) f /\
  (forall t, In t (filterTasks (filterTasks tasks f) g) <->
             In t tasks /\ filter_accepts f t = true /\ filter_accepts g t = true).
Proof.
  unfold filterTasks. split; [apply List.filter_app|]. split; [|split].
  - induction tasks as [|t r IH]; [reflexivity|]. cbn [List.filter].
    destruct (filter_accepts f t) eqn:E; [|exact IH].
    cbn [List.filter]. now rewrite E, IH.
  - induction tasks as [|t r IH]; [reflexivity|]. cbn [List.filter].
    destruct (filter_accepts f t) eqn:Ef, (filter_accepts g t) eqn:Eg;
      cbn [List.filter]; rewrite ?Ef, ?Eg, IH; reflexivity.
  - intros t. rewrite !List.filter_In. tauto.
Qed.

(** X5. With a date range as the only criterion a task is judged on its due
    date, or on its creation time when it has no due date, and it is kept
    when that date lies between the two ends of the range, both included. A
    task whose date is an Invalid Date is kept by every range. *)
Theorem filterTasks_dateRange (range : DateRange) (t : Task) (lo hi : Z) :
  getTime (range_start range) = Num lo ->
  getTime (range_end range) = Num hi ->
  (forall z, getTime (range_date t) = Num z ->
     (In t (filterTasks [t] (only_dateRange range)) <-> lo <= z <= hi)) /\
  (getTime (range_date t) = NaN -> filterTasks [t] (only_dateRange range) = [t]).
Proof.
  intros Hlo Hhi.
  assert (Hacc : filter_accepts (only_dateRange range) t
                 = negb (Date_lt (range_date t) (range_start range)
                         || Date_lt (range_end range) (range_date t))).
  { unfold filter_accepts, range_date. simpl. reflexivity. }
  split.
  - intros z Hz. unfold filterTasks. cbn [List.filter]. rewrite Hacc.
    unfold Date_lt. rewrite Hlo, Hhi, Hz. simpl.
    destruct (Z.ltb_spec z lo); destruct (Z.ltb_spec hi z); simpl.
    + split; [intros []|lia].
    + split; [intros []|lia].
    + split; [intros []|lia].
    + split; [lia|]. intros _. now left.
  - intros Hz. unfold filterTasks. cbn [List.filter]. rewrite Hacc.
    unfold Date_lt. rewrite Hlo, Hhi, Hz. reflexivity.
Qed.

Lemma filterTasks_dateRange_witness :
  filterTasks [invalid_due_task] (only_dateRange week_range) = [invalid_due_task].
Proof.
  apply (filterTasks_dateRange week_range invalid_due_task 1000 9000);
    reflexivity.
Defined.

(** ** Overdue and upcoming tasks *)

(** X6. Read at the same time, the overdue tasks and the upcoming tasks have
    nothing in common. A task with a valid due date that is neither
    completed nor cancelled is in exactly one of three cases: overdue (due
    before now), upcoming (due from now up to the end of the coming week,
    both ends included), or due later than that. The end of the coming week
    is the second clock reading moved seven days ahead in the local
    calendar: the same local time of day seven days later, taken back to
    UTC, which is seven times 24 hours later at a fixed offset and may be an
    hour more or less across a change of the clocks. *)
Theorem overdue_upcoming_disjoint (LocalTZA : Z -> bool -> Z) (now now' : Z)
    (tasks : list Task) (t : Task) :
  let overdue_tasks := getOverdueTasks (mkDate (Num now)) tasks in
  let upcoming :=
    getUpcomingTasks LocalTZA (mkDate (Num now)) (mkDate (Num now')) tasks in
  let local := now' + LocalTZA now' true + 7 * msPerDay in
  let nextWeek := local - LocalTZA local false in
  (In t overdue_tasks -> ~ In t upcoming) /\
  (forall d, In t tasks ->
     dueDate t = Some (mkDate (Num d)) ->
     status t <> completed -> status t <> cancelled ->
     Z.abs nextWeek <= 8640000000000000 ->
     (In t overdue_tasks <-> d < now) /\
     (In t upcoming <-> now <= d <= nextWeek)) /\
  (forall tz, LocalTZA = fixed_offset tz -> nextWeek = now' + 7 * msPerDay).
Proof.
  cbv zeta. unfold getOverdueTasks, getUpcomingTasks. split; [|split].
  - rewrite !List.filter_In. intros [_ Ho] [_ Hu].
    destruct (dueDate t) as [[[d|]]|]; try discriminate.
    unfold Date_lt, Date_ge, Date_le in *. simpl in *.
    destruct (Z.ltb_spec d now); destruct (Z.leb_spec now d); try lia; discriminate.
  - intros d Hin Hd Hc Hx Hrange. rewrite !List.filter_In, Hd.
    unfold Date_lt, Date_ge, Date_le, setDatePlus, LocalTime, UTC. simpl.
    rewrite (TimeClip_in_range _ Hrange). simpl.
    assert (Status_eqb (status t) completed = false) as -> by now destruct (status t).
    assert (Status_eqb (status t) cancelled = false) as -> by now destruct (status t).
    simpl. rewrite !andb_true_r. split.
    + rewrite Z.ltb_lt. tauto.
    + rewrite andb_true_iff, !Z.leb_le. tauto.
  - intros tz ->. unfold fixed_offset. lia.
Qed.

(** ** Sorting by the other keys *)

Section SortFactsMore.

Context {A : Type}.

Lemma sort_insert_ext_in (c1 c2 : A -> A -> num) (x : A) (l : list A) :
  (forall y, In y l -> comes_after (c1 x y) = comes_after (c2 x y)) ->
  sort_insert c1 x l = sort_insert c2 x l.
Proof.
  induction l as [|y r IH]; intros H; [reflexivity|].
  cbn [sort_insert]. rewrite (H y (or_introl eq_refl)).
  destruct (comes_after (c2 x y)); [|reflexivity].
  f_equal. apply IH. intros z Hz. apply H. now right.
Qed.

(** Two comparators that agree on the elements of a list sort it alike. *)
Lemma Array_sort_ext_in (c1 c2 : A -> A -> num) (l : list A) :
  (forall x y, In x l -> In y l -> comes_after (c1 x y) = comes_after (c2 x y)) ->
  Array_sort c1 l = Array_sort c2 l.
Proof.
  induction l as [|x r IH]; intros H; [reflexivity|].
  cbn [Array_sort]. rewrite IH by (intros; apply H; now right).
  apply sort_insert_ext_in. intros y Hy. apply H; [now left|right].
  eapply Permutation_in; [symmetry; apply Array_sort_Permutation|exact Hy].
Qed.

Variable comparefn : A -> A -> num.
Variable key : A -> Z.
Hypothesis comparefn_key :
  forall x y, comes_after (comparefn x y) = (key x <? key y).



End SortFactsMore.

Lemma StronglySorted_weaken {A : Type} (R R' : A -> A -> Prop) (l : list A) :
  (forall a b, R a b -> R' a b) -> StronglySorted R l -> StronglySorted R' l.
Proof.
  intros H. induction 1 as [|x r Hr IH Hx]; constructor; [assumption|].
  eapply List.Forall_impl; [|exact Hx]. intros b. apply H.
Qed.


(** X7. Whatever the key and the direction, and also when dates are invalid,
    sorting neither drops nor duplicates a task: the result is a
    rearrangement of the input. *)
Theorem sortTasks_is_permutation
    (localeCompare : string -> string -> Z) (tasks : list Task)
    (sortBy : SortOption) (ascending : option bool) :
  let sorted := sortTasks localeCompare tasks sortBy ascending in
  Permutation tasks sorted /\
  length sorted = length tasks /\
  forall t, In t sorted <-> In t tasks.
Proof.
  cbv zeta. unfold sortTasks.
  set (cmp := fun a b : Task => _).
  pose proof (Array_sort_Permutation cmp tasks) as HP.
  split; [exact HP|]. split.
  - symmetry. now apply Permutation_length.
  - intros t. split; intros H.
    + eapply Permutation_in; [symmetry; exact HP|exact H].
    + eapply Permutation_in; [exact HP|exact H].
Qed.


Lemma sortComparison_dueDate_valid (localeCompare : string -> string -> Z) (a b : Task) :
  valid_dueDate a -> valid_dueDate b ->
  sortComparison localeCompare SortDueDate a b = Num (dueDate_key a - dueDate_key b).
Proof.
  unfold valid_dueDate, dueDate_key. simpl.
  destruct (dueDate a) as [da|], (dueDate b) as [db|]; simpl.
  - intros [x ->] [y ->]. reflexivity.
  - intros [x ->] _. reflexivity.
  - intros _ [y ->]. reflexivity.
  - reflexivity.
Qed.

Lemma StronglySorted_after {A : Type} (R : A -> A -> Prop) (pre post : list A) (u : A) :
  StronglySorted R (pre ++ u :: post) -> Forall (R u) post.
Proof.
  induction pre as [|x pre IH]; simpl; intros H.
  - now apply StronglySorted_inv in H.
  - apply StronglySorted_inv in H. now apply IH.
Qed.

(** X9. When every due date is a valid date, sorting by due date orders the
    tasks by time, earliest first when ascending and latest first otherwise,
    a task without due date counting as due on 9999-12-31; tasks due at the
    same time keep their order. In ascending order no task due before
    9999-12-31 comes after a task without due date. *)
Theorem sortTasks_dueDate_order
    (localeCompare : string -> string -> Z) (ascending : bool) (tasks : list Task) :
  Forall valid_dueDate tasks ->
  let sorted := sortTasks localeCompare tasks SortDueDate (Some ascending) in
  StronglySorted
    (fun a b => if ascending then dueDate_key a <= dueDate_key b
                else dueDate_key b <= dueDate_key a) sorted /\
  (forall k, List.filter (fun t => dueDate_key t =? k) sorted
             = List.filter (fun t => dueDate_key t =? k) tasks) /\
  (ascending = true ->
   forall pre u post, sorted = pre ++ u :: post -> dueDate u = None ->
   forall t, In t post -> ~ due_before_9999 t).
Proof.
  intros Hvalid. cbv zeta.
  set (cmp' := fun a b : Task =>
                 if ascending then Num (dueDate_key a - dueDate_key b)
                 else num_neg (Num (dueDate_key a - dueDate_key b))).
  set (dkey := fun t => direction_sign ascending * dueDate_key t).
  assert (Heq : sortTasks localeCompare tasks SortDueDate (Some ascending)
                = Array_sort cmp' tasks).
  { unfold sortTasks. apply Array_sort_ext_in. intros x y Hx Hy.
    rewrite List.Forall_forall in Hvalid.
    rewrite (sortComparison_dueDate_valid localeCompare x y) by (apply Hvalid; assumption).
    reflexivity. }
  assert (Hkey : forall x y, comes_after (cmp' x y) = (dkey x <? dkey y)).
  { intros x y. unfold cmp', dkey, direction_sign.
    destruct ascending; simpl;
      destruct (Z.ltb_spec 0 (dueDate_key x - dueDate_key y));
      try (destruct (Z.ltb_spec 0 (- (dueDate_key x - dueDate_key y))));
      symmetry; first [apply Z.ltb_lt | apply Z.ltb_ge]; lia. }
  rewrite Heq.
  assert (Hsorted : StronglySorted
            (fun a b => if ascending then dueDate_key a <= dueDate_key b
                        else dueDate_key b <= dueDate_key a) (Array_sort cmp' tasks)).
  { eapply StronglySorted_weaken; [|exact (Array_sort_sorted cmp' dkey Hkey tasks)].
    intros a b. unfold key_desc, dkey, direction_sign. destruct ascending; lia. }
  split; [exact Hsorted|]. split.
  - intros k.
    assert (Hf : forall l, List.filter (fun t => dueDate_key t =? k) l
                   = List.filter (fun t => dkey t =? direction_sign ascending * k) l).
    { intros l. apply List.filter_ext. intros t. unfold dkey, direction_sign.
      destruct ascending;
        destruct (Z.eqb_spec (dueDate_key t) k); symmetry;
        first [apply Z.eqb_eq | apply Z.eqb_neq]; lia. }
    rewrite !Hf. apply (Array_sort_stable cmp' dkey Hkey).
  - intros -> pre u post Hsplit Hu t Ht (d & z & Hd & Hz & Hlt).
    rewrite Hsplit in Hsorted. apply StronglySorted_after in Hsorted.
    rewrite List.Forall_forall in Hsorted. specialize (Hsorted t Ht). cbv beta iota in Hsorted.
    unfold dueDate_key in Hsorted. rewrite Hu, Hd, Hz in Hsorted. lia.
Qed.

Lemma sortTasks_dueDate_order_witness :
  sortTasks (fun _ _ => 0) dated_and_undated SortDueDate (Some true)
  = [dated_task "task_c" 3000; dated_task "task_b" 5000; undated_task "task_a"] /\
  StronglySorted (fun a b => dueDate_key a <= dueDate_key b)
    (sortTasks (fun _ _ => 0) dated_and_undated SortDueDate (Some true)).
Proof.
  split; [reflexivity|].
  assert (Hvalid : Forall valid_dueDate dated_and_undated).
  { unfold dated_and_undated.
    repeat (apply List.Forall_cons; [unfold valid_dueDate; simpl; eauto|]).
    apply List.Forall_nil. }
  destruct (sortTasks_dueDate_order (fun _ _ => 0) true dated_and_undated Hvalid)
    as (H & _).
  exact H.
Defined.

(** ** The task board sorts like [sortTasks] *)

(** X10. The task board orders tasks by priority and by creation time exactly
    as [sortTasks] does in its default, descending direction, and by title as
    [sortTasks] does in ascending direction. By due date it agrees with the
    ascending [sortTasks] when every task either has no due date or is due,
    at a valid date, before 9999-12-31. *)
Theorem TaskBoard_sorts_like_sortTasks
    (localeCompare : string -> string -> Z) (tasks : list Task) :
  TaskBoard_sortedTasks localeCompare "priority" tasks
    = sortTasks localeCompare tasks SortPriority None /\
  TaskBoard_sortedTasks localeCompare "created" tasks
    = sortTasks localeCompare tasks SortCreatedAt None /\
  TaskBoard_sortedTasks localeCompare "title" tasks
    = sortTasks localeCompare tasks SortTitle (Some true) /\
  (Forall (fun t => dueDate t = None \/ due_before_9999 t) tasks ->
   TaskBoard_sortedTasks localeCompare "dueDate" tasks
     = sortTasks localeCompare tasks SortDueDate (Some true)).
Proof.
  unfold TaskBoard_sortedTasks, sortTasks. split; [|split; [|split]].
  - apply Array_sort_ext_in. intros x y _ _. simpl. f_equal.
    generalize (priorityOrder (priority y)) (priorityOrder (priority x)). intros a b. lia.
  - apply Array_sort_ext_in. intros x y _ _. unfold TaskBoard_compare. simpl.
    destruct (getTime (createdAt x)), (getTime (createdAt y)); simpl; try reflexivity.
    f_equal; lia.
  - reflexivity.
  - intros H. rewrite List.Forall_forall in H.
    apply Array_sort_ext_in. intros x y Hx Hy. unfold TaskBoard_compare. simpl.
    destruct (H x Hx) as [Ex|(dx & zx & Ex & Etx & Hltx)];
      destruct (H y Hy) as [Ey|(dy & zy & Ey & Ety & Hlty)];
      rewrite Ex, Ey; simpl; rewrite ?Etx, ?Ety; simpl; try reflexivity.
    + symmetry. apply Z.ltb_lt. lia.
    + symmetry. apply Z.ltb_ge. lia.
Qed.

Lemma TaskBoard_sorts_like_sortTasks_witness :
  TaskBoard_sortedTasks (fun _ _ => 0) "dueDate" dated_and_undated
  = sortTasks (fun _ _ => 0) dated_and_undated SortDueDate (Some true).
Proof.
  apply (TaskBoard_sorts_like_sortTasks (fun _ _ => 0) dated_and_undated).
  unfold dated_and_undated.
  apply List.Forall_cons; [now left|].
  apply List.Forall_cons;
    [right; exists (mkDate (Num 5000)), 5000; repeat split; lia|].
  apply List.Forall_cons;
    [right; exists (mkDate (Num 3000)), 3000; repeat split; lia|].
  apply List.Forall_nil.
Defined.

(** ** Updates compose, and agree with the typed view of a task *)

(** X11. Two updates in a row amount to one update by the merged change
    sets, a key of the later change set winning over the same key of the
    earlier one; of the two clock readings only the later one remains. *)
Theorem updateTask_twice (now1 now2 : Date) (task u1 u2 : JsObject) :
  updateTask now2 (updateTask now1 task u1) u2 = updateTask now2 task (u2 ∪ u1).
Proof.
  apply map_eq. intros k. rewrite !updateTask_lookup, lookup_union.
  destruct (decide (k = "updatedAt")); [reflexivity|].
  destruct (u2 !! k), (u1 !! k); reflexivity.
Qed.

(** X12. Changing the status of a typed task, as [completeTask] and the
    status selector of the task board do, gives the same typed task with the
    new status and with [updatedAt] set to the clock reading; every other
    field, optional ones included, is as before. *)
Theorem updateTask_status_typed (now : Date) (t : Task) (s : Status) :
  updateTask now (Task_to_object t) (status_change s) = Task_to_object (with_status s now t) /\
  completeTask now (Task_to_object t) = Task_to_object (with_status completed now t).
Proof.
  assert (H : forall s', updateTask now (Task_to_object t) (status_change s')
                         = Task_to_object (with_status s' now t)).
  { intros s'. destruct t as [i ti de pr st ca du cr up tg ai so].
    destruct de, du, so; reflexivity. }
  split; [apply H|apply (H completed)].
Qed.

(** X13. [createTask] of an empty partial record is the typed task with a
    generated id, an empty title, priority medium, status todo, category
    general, no tags, and both times set to now. A partial record wins over
    every default it names, the generated id and the times included: given a
    whole task, [createTask] returns that task. *)
Theorem createTask_defaults_and_override (rd : Reading) (partial : JsObject) (t : Task) :
  createTask rd ∅ = Task_to_object (default_task rd) /\
  createTask rd partial = partial ∪ Task_to_object (default_task rd) /\
  createTask rd (Task_to_object t) = Task_to_object t.
Proof.
  assert (H0 : createTask rd ∅ = Task_to_object (default_task rd)) by reflexivity.
  assert (H1 : forall p, createTask rd p = p ∪ Task_to_object (default_task rd)).
  { intros p. unfold createTask.
    match goal with
    | |- object_literal (?a :: ?b :: ?c :: ?d :: ?e :: ?f :: ?g :: ?h :: ?i :: [?s]) = _ =>
        change (a :: b :: c :: d :: e :: f :: g :: h :: i :: [s])
          with ([a; b; c; d; e; f; g; h; i] ++ [s])
    end.
    rewrite object_literal_snoc. simpl literal_step. reflexivity. }
  split; [exact H0|]. split; [apply H1|].
  rewrite H1. destruct t as [i ti de pr st ca du cr up tg ai so].
  destruct de, du, so; reflexivity.
Qed.

(** ** The handlers of the task board *)

Lemma handleTaskUpdate_ids (tasks : list Task) (updatedTask : Task) :
  map id (handleTaskUpdate tasks updatedTask) = map id tasks.
Proof.
  unfold handleTaskUpdate. induction tasks as [|t r IH]; [reflexivity|].
  simpl. rewrite IH. f_equal.
  destruct (String.eqb_spec (id t) (id updatedTask)); congruence.
Qed.

Lemma handleTaskUpdate_absent (tasks : list Task) (updatedTask : Task) :
  ~ In (id updatedTask) (map id tasks) -> handleTaskUpdate tasks updatedTask = tasks.
Proof.
  unfold handleTaskUpdate. induction tasks as [|t r IH]; [reflexivity|].
  simpl. intros H. rewrite IH by tauto.
  destruct (String.eqb_spec (id t) (id updatedTask)); [|reflexivity].
  exfalso. apply H. now left.
Qed.

Lemma handleTaskUpdate_replaces (tasks : list Task) (t updatedTask : Task) :
  unique_ids tasks -> In t tasks -> id updatedTask = id t ->
  exists pre post,
    tasks = pre ++ t :: post /\
    handleTaskUpdate tasks updatedTask = pre ++ updatedTask :: post.
Proof.
  unfold unique_ids. induction tasks as [|x r IH]; [intros _ []|].
  simpl. intros Hnd [->|Hin] Hid; inversion Hnd as [|? ? Hx Hr]; subst.
  - exists [], r. split; [reflexivity|]. unfold handleTaskUpdate. simpl.
    rewrite <- Hid, String.eqb_refl. f_equal.
    apply handleTaskUpdate_absent. now rewrite Hid.
  - destruct (IH Hr Hin Hid) as (pre & post & -> & Hupd).
    exists (x :: pre), post. split; [reflexivity|].
    unfold handleTaskUpdate in *. simpl. rewrite Hupd.
    destruct (String.eqb_spec (id x) (id updatedTask)) as [E|E]; [|reflexivity].
    exfalso. apply Hx. rewrite E, Hid. apply in_map. apply in_or_app. right. now left.
Qed.

(** X14. Storing an updated task in the board's list never changes the ids
    of the list or their order. When the ids are unique and the task is in
    the list, exactly that task is replaced, in place; when no task has the
    id of the updated task, the list stays as it is. *)
Theorem handleTaskUpdate_in_place (tasks : list Task) (t updatedTask : Task) :
  map id (handleTaskUpdate tasks updatedTask) = map id tasks /\
  (unique_ids tasks -> unique_ids (handleTaskUpdate tasks updatedTask)) /\
  (~ In (id updatedTask) (map id tasks) -> handleTaskUpdate tasks updatedTask = tasks) /\
  (unique_ids tasks -> In t tasks -> id updatedTask = id t ->
   exists pre post,
     tasks = pre ++ t :: post /\
     handleTaskUpdate tasks updatedTask = pre ++ updatedTask :: post).
Proof.
  split; [apply handleTaskUpdate_ids|]. split; [|split].
  - unfold unique_ids. now rewrite handleTaskUpdate_ids.
  - apply handleTaskUpdate_absent.
  - apply handleTaskUpdate_replaces.
Qed.

Lemma handleTaskUpdate_in_place_witness :
  let t := sample_task "task_b" in_progress high None in
  let u := with_status completed (mkDate (Num 2000)) t in
  exists pre post,
    three_tasks = pre ++ t :: post /\
    handleTaskUpdate three_tasks u = pre ++ u :: post.
Proof.
  cbv zeta.
  destruct (handleTaskUpdate_in_place three_tasks
              (sample_task "task_b" in_progress high None)
              (with_status completed (mkDate (Num 2000))
                 (sample_task "task_b" in_progress high None)))
    as (_ & _ & _ & H).
  apply H.
  - unfold unique_ids, three_tasks. simpl.
    repeat (apply List.NoDup_cons; [simpl; intuition discriminate|]). apply List.NoDup_nil.
  - unfold three_tasks. simpl. auto.
  - reflexivity.
Defined.

(** X15. A confirmed deletion in the task board removes every task that has
    the id and keeps the others in their order, so unique ids stay unique; a
    later update that carries the deleted id changes nothing. Without the
    confirmation the list stays as it is. *)
Theorem handleTaskDelete_removes_id (tasks : list Task) (taskId : string) (u : Task) :
  let remaining := handleTaskDelete true tasks taskId in
  ~ In taskId (map id remaining) /\
  map id remaining = List.filter (fun i => negb (String.eqb i taskId)) (map id tasks) /\
  (unique_ids tasks -> unique_ids remaining) /\
  (id u = taskId -> handleTaskUpdate remaining u = remaining) /\
  handleTaskDelete false tasks taskId = tasks.
Proof.
  cbv zeta. unfold handleTaskDelete.
  assert (Hids : map id (List.filter (fun task => negb (String.eqb (id task) taskId)) tasks)
                 = List.filter (fun i => negb (String.eqb i taskId)) (map id tasks)).
  { induction tasks as [|t r IH]; [reflexivity|]. simpl.
    destruct (String.eqb (id t) taskId); simpl; now rewrite IH. }
  assert (Hnot : ~ In taskId
                   (map id (List.filter (fun task => negb (String.eqb (id task) taskId)) tasks))).
  { rewrite Hids. intros H. apply List.filter_In in H. destruct H as [_ H].
    now rewrite String.eqb_refl in H. }
  split; [exact Hnot|]. split; [exact Hids|]. split; [|split; [|reflexivity]].
  - unfold unique_ids. rewrite Hids. apply List.NoDup_filter.
  - intros <-. now apply handleTaskUpdate_absent.
Qed.

(** X16. Completing a task through the board, in a list with unique ids,
    leaves the number of tasks as it is and raises the number of completed
    tasks in the statistics by one, unless the task was completed already. *)
Theorem completing_a_task_counts (now now' : Date) (tasks : list Task) (t : Task) :
  unique_ids tasks -> In t tasks -> status t <> completed ->
  let tasks' := handleTaskUpdate tasks (with_status completed now' t) in
  total (calculateTaskStats now tasks') = total (calculateTaskStats now tasks) /\
  completedCount (calculateTaskStats now tasks')
    = completedCount (calculateTaskStats now tasks) + 1.
Proof.
  intros Hu Hin Hst. cbv zeta.
  destruct (handleTaskUpdate_replaces tasks t (with_status completed now' t) Hu Hin eq_refl)
    as (pre & post & -> & ->).
  unfold calculateTaskStats.
  pose proof (stats_fold_counts now (pre ++ with_status completed now' t :: post)
                (mkTaskStats (Z.of_nat (length (pre ++ with_status completed now' t :: post)))
                   0 0 0 (fun _ => 0) ∅)) as (Ht' & Hc' & _).
  pose proof (stats_fold_counts now (pre ++ t :: post)
                (mkTaskStats (Z.of_nat (length (pre ++ t :: post))) 0 0 0 (fun _ => 0) ∅))
    as (Ht & Hc & _).
  rewrite Ht', Hc', Ht, Hc. cbn [total completedCount].
  rewrite !length_app. cbn [length]. split; [reflexivity|].
  unfold count_tasks. rewrite !List.filter_app, !length_app. cbn [List.filter].
  assert (Status_eqb (status t) completed = false) as -> by now destruct (status t).
  simpl. lia.
Qed.

Lemma completing_a_task_counts_witness :
  let t := sample_task "task_b" in_progress high None in
  let tasks' := handleTaskUpdate three_tasks (with_status completed (mkDate (Num 2000)) t) in
  completedCount (calculateTaskStats (mkDate (Num 3000)) tasks')
  = completedCount (calculateTaskStats (mkDate (Num 3000)) three_tasks) + 1.
Proof.
  cbv zeta.
  apply (completing_a_task_counts (mkDate (Num 3000)) (mkDate (Num 2000)) three_tasks
           (sample_task "task_b" in_progress high None)).
  - unfold unique_ids, three_tasks. simpl.
    repeat (apply List.NoDup_cons; [simpl; intuition discriminate|]). apply List.NoDup_nil.
  - unfold three_tasks. simpl. auto.
  - discriminate.
Defined.

(** ** The task store behind the CRUD route *)

Lemma findIndex_None {A : Type} (p : A -> bool) (l : list A) :
  findIndex p l = None <-> List.Forall (fun x => p x = false) l.
Proof.
  induction l as [|x r IH]; simpl.
  - split; [constructor|reflexivity].
  - destruct (p x) eqn:E.
    + split; [discriminate|]. intros H. inversion H; congruence.
    + destruct (findIndex p r); simpl.
      * split; [discriminate|]. intros H. inversion H as [|? ? _ Hr]; subst.
        apply IH in Hr. discriminate.
      * split; [|reflexivity]. intros _. constructor; [assumption|]. now apply IH.
Qed.

(** The first element that passes the test, with those before it. *)
Lemma findIndex_first {A : Type} (p : A -> bool) (l : list A) (i : nat) :
  findIndex p l = Some i ->
  exists pre x post,
    l = pre ++ x :: post /\ length pre = i /\ p x = true /\
    List.Forall (fun y => p y = false) pre.
Proof.
  revert i. induction l as [|x r IH]; intros i; simpl; [discriminate|].
  destruct (p x) eqn:E.
  - intros [= <-]. exists [], x, r. repeat split; auto.
  - destruct (findIndex p r) as [j|]; [|discriminate]. intros [= <-].
    destruct (IH j eq_refl) as (pre & y & post & -> & Hl & Hy & Hpre).
    exists (x :: pre), y, post. repeat split; simpl; auto.
Qed.

Lemma findIndex_app_first {A : Type} (p : A -> bool) (pre post : list A) (x : A) :
  List.Forall (fun y => p y = false) pre -> p x = true ->
  findIndex p (pre ++ x :: post) = Some (length pre).
Proof.
  intros Hpre Hx. induction Hpre as [|y r Hy Hr IH]; simpl.
  - now rewrite Hx.
  - now rewrite Hy, IH.
Qed.

Lemma delete_middle {A : Type} (pre post : list A) (x : A) :
  delete (length pre) (pre ++ x :: post) = pre ++ post.
Proof. induction pre as [|y r IH]; simpl; [reflexivity|]. now rewrite IH. Qed.

Lemma lookup_middle {A : Type} (pre post : list A) (x : A) :
  (pre ++ x :: post) !! length pre = Some x.
Proof. induction pre as [|y r IH]; simpl; [reflexivity|]. exact IH. Qed.


(** X18. A request to delete a task without an id, or with an id that no
    stored task has, leaves the store as it is (400, 404). Otherwise the
    first task that has the id is taken out and returned, and no other task:
    the tasks before it do not have the id, and the tasks before and after it
    keep their places. *)
Theorem DELETE_removes_first (tasksStore : list JsObject) (taskId : option string) :
  let '(response, store') := DELETE tasksStore taskId in
  match response with
  | Delete200 deletedTask =>
      exists i pre task post,
        taskId = Some i /\ i <> EmptyString /\
        deletedTask = Some task /\
        tasksStore = pre ++ task :: post /\
        store' = pre ++ post /\
        strict_equals (object_get task "id") (VStr i) = true /\
        id_free i pre
  | Delete404 =>
      store' = tasksStore /\ exists i, taskId = Some i /\ id_free i tasksStore
  | Delete400 =>
      store' = tasksStore /\ (taskId = None \/ taskId = Some EmptyString)
  end.
Proof.
  unfold DELETE. destruct taskId as [i|]; [|split; auto].
  destruct (String.eqb_spec i EmptyString) as [->|Hne]; [split; auto|].
  destruct (findIndex _ tasksStore) as [n|] eqn:E.
  - apply findIndex_first in E. destruct E as (pre & x & post & -> & <- & Hx & Hpre).
    exists i, pre, x, post. rewrite lookup_middle, delete_middle.
    repeat split; assumption.
  - split; [reflexivity|]. exists i. split; [reflexivity|].
    apply findIndex_None in E. exact E.
Qed.


Lemma POST_created (new_Date : json -> num) (rd : Reading) (now' : Z)
    (tasksStore store' : list JsObject) (taskData : json) (newTask : JsObject) :
  POST new_Date rd now' tasksStore taskData = (Post201 newTask, store') ->
  store' = tasksStore ++ [newTask] /\
  object_get newTask "id" = VStr (generated_id rd).
Proof.
  unfold POST. destruct taskData as [| | | | |ms]; try discriminate.
  destruct (negb _ || negb _); [discriminate|].
  intros [= <- <-]. split; [reflexivity|].
  unfold object_get.
  match goal with
  | |- match object_literal ?l !! _ with _ => _ end = _ =>
      let l' := eval cbv [app] in l in change l with l'
  end.
  match goal with
  | |- match object_literal (?a :: ?b :: ?c :: ?d :: ?e :: ?f :: ?g :: ?h :: ?i :: ?j
                             :: ?s1 :: [?s2]) !! _ with _ => _ end = _ =>
      change (a :: b :: c :: d :: e :: f :: g :: h :: i :: j :: s1 :: [s2])
        with (([a; b; c; d; e; f; g; h; i; j] ++ [s1]) ++ [s2])
  end.
  rewrite !object_literal_snoc. simpl literal_step.
  rewrite lookup_union_r.
  - rewrite lookup_union_r; [reflexivity|now apply dueDate_spread_other].
  - unfold truthy_spread. destruct (truthy _); [|apply lookup_empty].
    unfold object_literal. simpl. rewrite lookup_insert_ne by congruence.
    apply lookup_empty.
Qed.

(** X19. Deleting a task right after it was created, by the id it was given,
    takes exactly that task out again and gives back the store as it was
    before, provided no task of the store already had that id. *)
Theorem POST_then_DELETE (new_Date : json -> num) (rd : Reading) (now' : Z)
    (tasksStore store' : list JsObject) (taskData : json) (newTask : JsObject) :
  POST new_Date rd now' tasksStore taskData = (Post201 newTask, store') ->
  id_free (generated_id rd) tasksStore ->
  DELETE store' (Some (generated_id rd)) = (Delete200 (Some newTask), tasksStore).
Proof.
  intros Hpost Hfree. apply POST_created in Hpost. destruct Hpost as [-> Hid].
  unfold DELETE. change (String.eqb (generated_id rd) EmptyString) with false. cbv iota.
  rewrite (findIndex_app_first _ tasksStore [] newTask).
  - rewrite lookup_middle, delete_middle. now rewrite app_nil_r.
  - exact Hfree.
  - rewrite Hid. simpl. apply String.eqb_refl.
Qed.

Lemma POST_then_DELETE_witness :
  let created :=
    POST host_new_Date reading_1 1710500000002 [Task_to_object stored_task] post_request in
  exists newTask,
    fst created = Post201 newTask /\
    DELETE (snd created) (Some (generated_id reading_1))
      = (Delete200 (Some newTask), [Task_to_object stored_task]).
Proof.
  cbv zeta.
  destruct (POST host_new_Date reading_1 1710500000002 [Task_to_object stored_task]
              post_request) as [response store'] eqn:E.
  assert (Hr : exists newTask, response = Post201 newTask).
  { unfold POST, post_request in E. simpl in E. injection E as <- _. eauto. }
  destruct Hr as [newTask ->]. exists newTask. split; [reflexivity|].
  apply (POST_then_DELETE host_new_Date reading_1 1710500000002
           [Task_to_object stored_task] store' post_request newTask E).
  unfold id_free. apply List.Forall_cons; [reflexivity|]. apply List.Forall_nil.
Defined.



(** ** The GET handler of the task CRUD route *)

Lemma Task_to_object_status (t : Task) :
  object_get (Task_to_object t) "status" = VStr (Status_to_string (status t)).
Proof. destruct t as [? ? [?|] ? ? ? [?|] ? ? ? ? [?|]]; reflexivity. Qed.

Lemma Task_to_object_priority (t : Task) :
  object_get (Task_to_object t) "priority" = VStr (Priority_to_string (priority t)).
Proof. destruct t as [? ? [?|] ? ? ? [?|] ? ? ? ? [?|]]; reflexivity. Qed.

Lemma Task_to_object_dueDate (t : Task) :
  object_get (Task_to_object t) "dueDate"
  = match dueDate t with
    | Some d => VDate (getTime d)
    | None => VUndefined
    end.
Proof. destruct t as [? ? [?|] ? ? ? [?|] ? ? ? ? [?|]]; reflexivity. Qed.

Lemma List_filter_map {A B : Type} (f : A -> B) (p : B -> bool) (l : list A) :
  List.filter p (map f l) = map f (List.filter (fun x => p (f x)) l).
Proof.
  induction l as [|x l IH]; simpl; [reflexivity|].
  destruct (p (f x)); simpl; now rewrite IH.
Qed.


Lemma sort_insert_map {A B : Type} (f : A -> B)
    (cmpA : A -> A -> num) (cmpB : B -> B -> num) (x : A) (l : list A) :
  (forall a b, cmpB (f a) (f b) = cmpA a b) ->
  sort_insert cmpB (f x) (map f l) = map f (sort_insert cmpA x l).
Proof.
  intros H. induction l as [|y l IH]; simpl; [reflexivity|].
  rewrite H. destruct (comes_after (cmpA x y)); simpl; now rewrite ?IH.
Qed.

Lemma Array_sort_map {A B : Type} (f : A -> B)
    (cmpA : A -> A -> num) (cmpB : B -> B -> num) (l : list A) :
  (forall a b, cmpB (f a) (f b) = cmpA a b) ->
  Array_sort cmpB (map f l) = map f (Array_sort cmpA l).
Proof.
  intros H. induction l as [|x l IH]; simpl; [reflexivity|].
  rewrite IH. now apply sort_insert_map.
Qed.

Lemma Status_to_string_eqb (a b : Status) :
  String.eqb (Status_to_string a) (Status_to_string b) = Status_eqb a b.
Proof. now destruct a, b. Qed.

(** X21. On a store of well-typed tasks the route and the library agree:
    [GET] with [filter=overdue] answers the tasks of [getOverdueTasks], with
    [filter=today] those of [getTasksDueToday], with [sortBy=priority] the
    order of [sortTasks] by priority (descending, the default), and with
    [status=s] the tasks that [filterTasks] keeps for the one status [s]. *)
Theorem GET_agrees_with_task_utils
    (new_Date ToNumber : json -> num) (ToString : value -> string)
    (localeCompare : string -> string -> Z)
    (LocalTZA : Z -> bool -> Z) (now : Date) (tasks : list Task) :
  let tasksStore := map Task_to_object tasks in
  let GET := GET new_Date ToNumber ToString LocalTZA now tasksStore in
  GET (Some "overdue") None None None = map Task_to_object (getOverdueTasks now tasks) /\
  GET (Some "today") None None None = map Task_to_object (getTasksDueToday LocalTZA now tasks) /\
  GET None (Some "priority") None None
    = map Task_to_object (sortTasks localeCompare tasks SortPriority None) /\
  forall s : Status,
    GET None None None (Some (Status_to_string s))
    = map Task_to_object (filterTasks tasks (only_status s)).
Proof.
  repeat split.
  - unfold GET, getOverdueTasks; simpl. rewrite List_filter_map.
    f_equal. apply List.filter_ext. intros t.
    rewrite Task_to_object_dueDate, Task_to_object_status.
    destruct (dueDate t) as [d|]; [|reflexivity]. simpl.
    unfold Date_lt. f_equal; [f_equal|]; now destruct (status t).
  - unfold GET, getTasksDueToday; simpl. rewrite List_filter_map.
    f_equal. apply List.filter_ext. intros t.
    rewrite Task_to_object_dueDate.
    destruct (dueDate t) as [[d]|]; reflexivity.
  - unfold GET, sortTasks; simpl. apply Array_sort_map. intros a b.
    rewrite !Task_to_object_priority.
    destruct (priority a), (priority b); reflexivity.
  - intros s. unfold GET, filterTasks.
    replace (param_given (Some (Status_to_string s))) with (Some (Status_to_string s))
      by now destruct s.
    simpl. rewrite List_filter_map.
    f_equal. apply List.filter_ext. intros t.
    rewrite Task_to_object_status. unfold filter_accepts; simpl.
    rewrite Status_to_string_eqb, orb_false_r, !andb_true_r. reflexivity.
Qed.


(** ** The task generation route *)


Lemma generateTasks_completion_of (content : json) :
  generateTasks (Normal (completion_of content))
  = match parseTasksFromResponse_of (js_or (VJson content) (VStr EmptyString)) with
    | Normal tasks => Some tasks
    | Throw _ => None
    end.
Proof. reflexivity. Qed.





(** X24. A reply of the model that is not a string, or in which no text
    from an opening to a closing square bracket parses as JSON, is no
    error: the route answers 200 with no task. *)
Theorem ai_generate_unparseable_reply (new_Date : json -> num)
    (readings : nat -> Reading) (ms : list (string * json)) (input : string)
    (content : json) :
  member "input" ms = VStr input -> input <> EmptyString ->
  match content with
  | JStr response => unparseable "[" "]" response = true
  | _ => True
  end ->
  AiGenerateRoute.POST new_Date readings (Normal (JObj ms)) (Normal (completion_of content))
  = Generate200 [] 0.
Proof.
  intros Hm Hi Hc. unfold AiGenerateRoute.POST. simpl get_prop. cbv iota.
  rewrite Hm.
  assert (Ht : truthy (VStr input) = true) by (destruct input; [congruence|reflexivity]).
  rewrite Ht. simpl negb. simpl orb. cbv iota.
  rewrite generateTasks_completion_of.
  assert (Hp : parseTasksFromResponse_of (js_or (VJson content) (VStr EmptyString))
               = Normal (JArr [])).
  { unfold js_or. destruct (truthy (VJson content)) eqn:E; [|reflexivity].
    destruct content; try reflexivity.
    now apply parseTasksFromResponse_unparseable. }
  rewrite Hp. reflexivity.
Qed.

Lemma ai_generate_unparseable_reply_witness :
  AiGenerateRoute.POST host_new_Date readings_1 (Normal generation_request)
    (Normal (completion_of (JStr plain_reply)))
  = Generate200 [] 0.
Proof.
  apply (ai_generate_unparseable_reply host_new_Date readings_1
           [("input", JStr "plan the week")] "plan the week" (JStr plain_reply)).
  - reflexivity.
  - discriminate.
  - vm_compute. reflexivity.
Defined.

(** ** The task extraction route *)

Lemma find_findIndex {A : Type} (p : A -> bool) (l : list A) (x : A) :
  find p l = Some x ->
  exists i, findIndex p l = Some i /\ l !! i = Some x /\ p x = true.
Proof.
  induction l as [|y l IH]; simpl; [discriminate|].
  destruct (p y) eqn:E.
  - intros [= <-]. exists 0%nat. auto.
  - intros H. destruct (IH H) as (i & Hi & Hl & Hp).
    exists (S i). rewrite Hi. auto.
Qed.

Lemma strict_equals_VStr (s : string) (v : value) :
  strict_equals (VStr s) v = true -> v = VStr s.
Proof.
  destruct v as [|[]|]; simpl; try discriminate.
  intros H. apply String.eqb_eq in H. now subst.
Qed.

(** What a response with status 200 tells about the request and the store. *)
Lemma ExtractTasksRoute_POST_200 (new_Date : json -> num) (readings : nat -> Reading)
    (documentsStore documentsStore' : list Document) (body data : Completion json)
    (tasks created : list JsObject) (total auto : nat) (i name : string) :
  ExtractTasksRoute.POST new_Date readings documentsStore body data
  = (Extract200 tasks total auto created i name, documentsStore') ->
  exists ms document docIndex items,
    body = Normal (JObj ms) /\ member "documentId" ms = VStr i /\ i <> EmptyString /\
    find (ExtractTasksRoute.has_id (VStr i)) documentsStore = Some document /\
    findIndex (ExtractTasksRoute.has_id (VStr i)) documentsStore = Some docIndex /\
    doc_id document = i /\ doc_name document = name /\
    generateTasks data = Some (JArr items) /\
    processExtractedTasks new_Date name readings items = Normal tasks /\
    total = length tasks /\
    documentsStore'
    = <[docIndex := mkDocument i name (doc_content document) (Some tasks)
                      (doc_other document)]> documentsStore.
Proof.
  unfold ExtractTasksRoute.POST.
  destruct body as [[| | | | |ms]|]; try discriminate;
    try (simpl; discriminate).
  destruct (truthy (member "documentId" ms)) eqn:Ht; simpl; [|discriminate].
  destruct (find _ documentsStore) as [document|] eqn:Hf; [|discriminate].
  destruct (doc_content document) as [[|c content]|] eqn:Hc; try discriminate.
  destruct (generateTasks data) as [[| | | |items|]|] eqn:Hg; try discriminate.
  destruct (processExtractedTasks _ _ _ items) as [processedTasks|] eqn:Hp;
    [|discriminate].
  destruct (find_findIndex _ _ _ Hf) as (docIndex & Hi & Hl & Hid).
  rewrite Hi. intros [= <- <- _ _ <- <- <-].
  apply strict_equals_VStr in Hid.
  rewrite Hid in Hf, Hi, Ht.
  exists ms, document, docIndex, items.
  repeat split; try assumption; try reflexivity.
  - intros E. rewrite E in Ht. discriminate.
  - now rewrite Hc.
Qed.

(** X25. The extraction route never adds a document to its store: after a
    POST the store holds documents with the same ids at the same places. The
    module starts with the empty store and nothing else writes it, so there
    every POST answers 400, 404 or 500 and leaves the store empty, and every
    GET answers 400 or 404. *)
Theorem extract_tasks_store_never_grows (new_Date : json -> num)
    (readings : nat -> Reading) (documentsStore : list Document)
    (body data : Completion json) (documentId : option string) :
  map doc_id (snd (ExtractTasksRoute.POST new_Date readings documentsStore body data))
  = map doc_id documentsStore /\
  snd (ExtractTasksRoute.POST new_Date readings documentsStore_initial body data)
  = documentsStore_initial /\
  extraction_failed
    (fst (ExtractTasksRoute.POST new_Date readings documentsStore_initial body data))
  = true /\
  (ExtractTasksRoute.GET documentsStore_initial documentId = Extracted400 \/
   ExtractTasksRoute.GET documentsStore_initial documentId = Extracted404).
Proof.
  split; [|split; [|split]].
  - destruct (ExtractTasksRoute.POST new_Date readings documentsStore body data)
      as [response documentsStore'] eqn:E.
    destruct response as [err| |err|tasks total auto created i name].
    4: { apply ExtractTasksRoute_POST_200 in E.
         destruct E as (ms & document & docIndex & items & _ & _ & _ & Hf & Hi & Hid
                        & _ & _ & _ & _ & ->).
         simpl. destruct (find_findIndex _ _ _ Hf) as (j & Hj & Hl & _).
         rewrite Hi in Hj. injection Hj as <-.
         rewrite list_fmap_insert. simpl.
         apply list_insert_id. rewrite list_lookup_fmap, Hl. simpl. now rewrite Hid. }
    all: revert E; unfold ExtractTasksRoute.POST;
      repeat match goal with
      | |- context [match ?c with _ => _ end] => destruct c eqn:?; simpl
      | |- context [if ?c then _ else _] => destruct c eqn:?; simpl
      end; try discriminate; intros H; inversion H; subst; reflexivity.
  - unfold ExtractTasksRoute.POST, documentsStore_initial.
    destruct body as [[| | | | |ms]|]; try reflexivity;
      simpl; destruct (negb _); reflexivity.
  - unfold ExtractTasksRoute.POST, documentsStore_initial.
    destruct body as [[| | | | |ms]|]; try reflexivity;
      simpl; destruct (negb _); reflexivity.
  - destruct documentId as [[|c s]|]; simpl; auto.
Qed.

(** ** Tasks in local storage *)





(** ** The filter of the task board *)

Lemma Array_filter_at_still {A : Type} (callback : Date -> A -> bool) (now : Date)
    (i : nat) (l : list A) :
  Array_filter_at callback (fun _ => now) i l = List.filter (callback now) l.
Proof.
  revert i. induction l as [|x r IH]; intros i; simpl; [reflexivity|].
  now rewrite IH.
Qed.

Lemma Array_filter_at_sublist {A : Type} (p q : Date -> A -> bool) (now : nat -> Date)
    (i : nat) (l : list A) :
  (forall d x, p d x = true -> q d x = true) ->
  sublist (Array_filter_at p now i l) (Array_filter_at q now i l).
Proof.
  intros H. revert i. induction l as [|x r IH]; intros i; simpl; [constructor|].
  destruct (p (now i) x) eqn:E.
  - rewrite (H _ _ E). now constructor.
  - destruct (q (now i) x); [constructor|]; apply IH.
Qed.

Lemma List_filter_filter {A : Type} (p q : A -> bool) (l : list A) :
  List.filter p (List.filter q l) = List.filter (fun x => q x && p x) l.
Proof.
  induction l as [|x r IH]; simpl; [reflexivity|].
  destruct (q x); simpl; [destruct (p x)|]; now rewrite IH.
Qed.

(** X28. The views of the task board. A search term only takes tasks away
    from what the selector shows. With the search box empty and a clock that
    stands still, the selector [active] shows the tasks that [filterTasks]
    keeps for the statuses todo and in-progress, [completed] those it keeps
    for the status completed, [overdue] as many tasks as the statistics
    count as overdue, of which those not cancelled are the tasks of
    [getOverdueTasks], and [all] shows every task. *)
Theorem TaskBoard_views (toLowerCase : string -> string) (searchTerm filter : string)
    (readings : nat -> Date) (now : Date) (tasks : list Task) :
  let shown f := TaskBoard_filteredTasks toLowerCase EmptyString f (fun _ => now) tasks in
  sublist (TaskBoard_filteredTasks toLowerCase searchTerm filter readings tasks)
    (TaskBoard_filteredTasks toLowerCase EmptyString filter readings tasks) /\
  shown "active" = filterTasks tasks (only_statuses [todo; in_progress]) /\
  shown "completed" = filterTasks tasks (only_statuses [completed]) /\
  Z.of_nat (length (shown "overdue")) = overdue (calculateTaskStats now tasks) /\
  List.filter (fun task => negb (Status_eqb (status task) cancelled)) (shown "overdue")
  = getOverdueTasks now tasks /\
  shown "all" = tasks.
Proof.
  cbv zeta. unfold TaskBoard_filteredTasks.
  split.
  { apply Array_filter_at_sublist. intros d t. unfold TaskBoard_shows. simpl.
    destruct (negb (searchTerm =? "")%string && _); [discriminate|auto]. }
  rewrite !Array_filter_at_still.
  split; [|split; [|split; [|split]]].
  - unfold filterTasks. apply List.filter_ext. intros t.
    unfold TaskBoard_shows, filter_accepts. simpl. now destruct (status t).
  - unfold filterTasks. apply List.filter_ext. intros t.
    unfold TaskBoard_shows, filter_accepts. simpl. now destruct (status t).
  - rewrite calculateTaskStats_overdue. reflexivity.
  - unfold getOverdueTasks. rewrite List_filter_filter.
    apply List.filter_ext. intros t. unfold TaskBoard_shows. simpl.
    now destruct (dueDate t).
  - induction tasks as [|t r IH]; [reflexivity|]. simpl. now rewrite IH.
Qed.

(** ** Instances of the properties above that have a premise inside *)

Lemma overdue_upcoming_disjoint_witness :
  let t := sample_task "task_a" todo high (Some (mkDate (Num 500))) in
  let u := sample_task "task_b" todo high (Some (mkDate (Num 1710590400000))) in
  In t (getOverdueTasks (mkDate (Num 1000)) [t]) /\
  ~ In t (getUpcomingTasks (fixed_offset 7200000) (mkDate (Num 1000))
            (mkDate (Num 1001)) [t]) /\
  In u (getUpcomingTasks America_New_York (mkDate (Num 1709989200000))
          (mkDate (Num 1709989200000)) [u]).
Proof.
  cbv zeta.
  destruct (overdue_upcoming_disjoint (fixed_offset 7200000) 1000 1001
              [sample_task "task_a" todo high (Some (mkDate (Num 500)))]
              (sample_task "task_a" todo high (Some (mkDate (Num 500)))))
    as (Hdisjoint & Hcases & _).
  destruct (Hcases 500) as [Hoverdue _].
  { left. reflexivity. }
  { reflexivity. }
  { discriminate. }
  { discriminate. }
  { vm_compute. discriminate. }
  assert (Hin : In (sample_task "task_a" todo high (Some (mkDate (Num 500))))
                  (getOverdueTasks (mkDate (Num 1000))
                     [sample_task "task_a" todo high (Some (mkDate (Num 500)))]))
    by (apply Hoverdue; lia).
  split; [exact Hin|]. split; [exact (Hdisjoint Hin)|].
  destruct (overdue_upcoming_disjoint America_New_York 1709989200000 1709989200000
              [sample_task "task_b" todo high (Some (mkDate (Num 1710590400000)))]
              (sample_task "task_b" todo high (Some (mkDate (Num 1710590400000)))))
    as (_ & Hweek & _).
  destruct (Hweek 1710590400000) as [_ Hupcoming].
  { left. reflexivity. }
  { reflexivity. }
  { discriminate. }
  { discriminate. }
  { vm_compute. discriminate. }
  apply Hupcoming. vm_compute. split; discriminate.
Defined.

Lemma handleTaskDelete_removes_id_witness :
  let remaining := handleTaskDelete true three_tasks "task_b" in
  map id remaining = ["task_a"; "task_c"] /\
  unique_ids remaining /\
  handleTaskUpdate remaining (sample_task "task_b" completed high None) = remaining.
Proof.
  cbv zeta.
  destruct (handleTaskDelete_removes_id three_tasks "task_b"
              (sample_task "task_b" completed high None))
    as (_ & Hids & Hunique & Hupdate & _).
  split; [rewrite Hids; reflexivity|]. split.
  - apply Hunique. unfold unique_ids, three_tasks. simpl.
    repeat (apply List.NoDup_cons; [simpl; intuition discriminate|]). apply List.NoDup_nil.
  - apply Hupdate. reflexivity.
Defined.
